(** * IGC flight-log viewer: parser, statistics and waypoint generator

    A shallow embedding of the [IGCParser] and [WaypointGenerator] classes
    and the properties stated about them.

    Conventions of the embedding.
    - A JavaScript string is the list of its UTF-16 code units ([jsstring]).
    - A number that the code obtains from [parseInt] and integer arithmetic
      is an integer or NaN: [jint = option Z], [None] being NaN.
    - Any other number is a real or NaN: [num = option R], [None] being NaN;
      arithmetic is exact (no rounding, no infinities, no signed zero).
    - The identity of a fix object ([===], [indexOf]) is its [oid]. *)

From Stdlib Require Import String Ascii DecimalString.
From Stdlib Require Import ZArith NArith Bool Lia Lra Reals List.
From Stdlib Require Import Sorted Permutation.
Import ListNotations.

Set Implicit Arguments.

(* ================================================================= *)
(** ** The fragment of the JavaScript runtime that the code uses *)

Module JS.

Definition char := N.
Definition jsstring := list char.

(** A literal: the code units of an ASCII string. *)
Definition js (s : string) : jsstring :=
  map N_of_ascii (list_ascii_of_string s).

Definition char_eqb (a b : char) : bool := N.eqb a b.

Fixpoint String_eqb (a b : jsstring) : bool :=
  match a, b with
  | [], [] => true
  | x :: a', y :: b' => char_eqb x y && String_eqb a' b'
  | _, _ => false
  end.

(** WhiteSpace and LineTerminator code points (what [trim] and [parseInt]
    strip). *)
Definition isWhiteSpace (c : char) : bool :=
  ((9 <=? c) && (c <=? 13) || (c =? 32) || (c =? 160) || (c =? 5760)
   || (8192 <=? c) && (c <=? 8202) || (c =? 8232) || (c =? 8233)
   || (c =? 8239) || (c =? 8287) || (c =? 12288) || (c =? 65279))%N.

(** LineTerminator: what [.] of a regular expression does not match. *)
Definition isLineTerminator (c : char) : bool :=
  ((c =? 10) || (c =? 13) || (c =? 8232) || (c =? 8233))%N.

Definition isDigit (c : char) : bool := ((48 <=? c) && (c <=? 57))%N.

Fixpoint dropWhile (p : char -> bool) (s : jsstring) : jsstring :=
  match s with
  | [] => []
  | c :: t => if p c then dropWhile p t else s
  end.

Fixpoint takeWhile (p : char -> bool) (s : jsstring) : jsstring :=
  match s with
  | [] => []
  | c :: t => if p c then c :: takeWhile p t else []
  end.

Definition trimStart (s : jsstring) : jsstring := dropWhile isWhiteSpace s.
Definition trimEnd (s : jsstring) : jsstring := rev (trimStart (rev s)).
(** [String.prototype.trim] *)
Definition trim (s : jsstring) : jsstring := trimEnd (trimStart s).

(** [String.prototype.startsWith] *)
Fixpoint startsWith (s p : jsstring) : bool :=
  match p, s with
  | [], _ => true
  | x :: p', y :: s' => char_eqb x y && startsWith s' p'
  | _ :: _, [] => false
  end.

(** [String.prototype.substr(start, length)] for [start] within the string. *)
Definition substr (s : jsstring) (start len : nat) : jsstring :=
  firstn len (skipn start s).

(** [String.prototype.charAt]: the empty string when out of range. *)
Definition charAt (s : jsstring) (i : nat) : jsstring := substr s i 1.

(** [s.split('\n')]: never empty, the last piece may be empty. *)
Fixpoint split_nl (s : jsstring) : list jsstring :=
  match s with
  | [] => [[]]
  | c :: t =>
      if (c =? 10)%N then [] :: split_nl t
      else match split_nl t with
           | [] => [[c]]
           | l :: ls => (c :: l) :: ls
           end
  end.

(** Numbers. *)
Definition jint := option Z.
Definition num := option R.

Definition of_int (i : jint) : num := option_map IZR i.

Definition lift2 {A B C} (f : A -> B -> C) (a : option A) (b : option B)
  : option C :=
  match a, b with
  | Some x, Some y => Some (f x y)
  | _, _ => None
  end.

Definition iadd : jint -> jint -> jint := lift2 Z.add.
Definition isub : jint -> jint -> jint := lift2 Z.sub.
Definition imul : jint -> jint -> jint := lift2 Z.mul.
Definition iabs (a : jint) : jint := option_map Z.abs a.
Definition imax : jint -> jint -> jint := lift2 Z.max.
Definition imin : jint -> jint -> jint := lift2 Z.min.

(** Comparisons: false as soon as one side is NaN. *)
Definition ilt (a b : jint) : bool :=
  match a, b with Some x, Some y => (x <? y)%Z | _, _ => false end.
Definition ile (a b : jint) : bool :=
  match a, b with Some x, Some y => (x <=? y)%Z | _, _ => false end.
Definition igt (a b : jint) : bool := ilt b a.

Definition nadd : num -> num -> num := lift2 Rplus.
Definition nsub : num -> num -> num := lift2 Rminus.
Definition nmul : num -> num -> num := lift2 Rmult.
(** Every divisor in the code is a non-zero constant or is guarded to be
    positive; a zero divisor (an infinity or NaN in JavaScript) is NaN here. *)
Definition ndiv (a b : num) : num :=
  match a, b with
  | Some x, Some y => if Req_dec_T y 0 then None else Some (x / y)%R
  | _, _ => None
  end.

Definition nlt (a b : num) : bool :=
  match a, b with
  | Some x, Some y => if Rlt_dec x y then true else false
  | _, _ => false
  end.
Definition nle (a b : num) : bool :=
  match a, b with
  | Some x, Some y => if Rle_dec x y then true else false
  | _, _ => false
  end.
Definition ngt (a b : num) : bool := nlt b a.

(** [Math.floor] and [Math.ceil] of a real. *)
Definition floorR (x : R) : Z := (up x - 1)%Z.
Definition ceilR (x : R) : Z := (- floorR (- x))%Z.
Definition Math_ceil (x : num) : jint := option_map ceilR x.

Definition Math_abs (x : num) : num := option_map Rabs x.
Definition Math_max : num -> num -> num := lift2 Rmax.
Definition Math_min : num -> num -> num := lift2 Rmin.
Definition Math_sin (x : num) : num := option_map sin x.
Definition Math_cos (x : num) : num := option_map cos x.
Definition Math_PI : num := Some PI.
(** [Math.sqrt]: NaN below zero. *)
Definition Math_sqrt (x : num) : num :=
  match x with
  | Some r => if Rlt_dec r 0 then None else Some (sqrt r)
  | None => None
  end.

(** [Math.atan2(y, x)] on reals: the angle of the point [(x, y)], in
    [(-PI, PI]]. *)
Definition atan2R (y x : R) : R :=
  if Rlt_dec 0 x then atan (y / x)
  else if Rlt_dec x 0 then
    (if Rle_dec 0 y then atan (y / x) + PI else atan (y / x) - PI)
  else if Rlt_dec 0 y then PI / 2
  else if Rlt_dec y 0 then - (PI / 2)
  else 0.
Definition Math_atan2 : num -> num -> num := lift2 atan2R.

(** The remainder operator [%]: the sign of the dividend, truncating
    quotient; NaN for a zero divisor. *)
Definition truncR (x : R) : Z :=
  if Rlt_dec x 0 then (- floorR (- x))%Z else floorR x.
Definition remR (x y : R) : R := (x - y * IZR (truncR (x / y)))%R.
Definition nrem (a b : num) : num :=
  match a, b with
  | Some x, Some y => if Req_dec_T y 0 then None else Some (remR x y)
  | _, _ => None
  end.

(** [parseInt(s, 10)]: leading white space, an optional sign, then the
    longest run of decimal digits; NaN when there is none. *)
Definition digitValue (c : char) : Z := Z.of_N (c - 48).

Definition digitsValue (ds : jsstring) : Z :=
  fold_left (fun acc c => (acc * 10 + digitValue c)%Z) ds 0%Z.

Definition parseInt (s : jsstring) : jint :=
  let s1 := trimStart s in
  let '(sign, s2) :=
    match s1 with
    | c :: t =>
        if (c =? 45)%N then ((-1)%Z, t)
        else if (c =? 43)%N then (1%Z, t)
        else (1%Z, s1)
    | [] => (1%Z, s1)
    end in
  match takeWhile isDigit s2 with
  | [] => None
  | ds => Some (sign * digitsValue ds)%Z
  end.

(** [Number.prototype.toString] of an integer or NaN (decimal expansion;
    the exponent notation that starts at 1e21 is beyond the log's field
    widths). *)
Definition intToString (i : jint) : jsstring :=
  match i with
  | None => js "NaN"
  | Some z => js (NilZero.string_of_int (Z.to_int z))
  end.

Definition natToString (n : nat) : jsstring :=
  intToString (Some (Z.of_nat n)).

(** [x.toFixed(d)] read on exact reals, for [x] below 1e21 in magnitude:
    the integer [n] with [n / 10^d] closest to the magnitude (the larger
    one on a tie), written with [d] digits behind the point. *)
Definition toFixed_exact (d : nat) (x : num) : jsstring :=
  match x with
  | None => js "NaN"
  | Some r =>
      let s := if Rlt_dec r 0 then js "-" else [] in
      let n := floorR (Rabs r * 10 ^ d + / 2) in
      let m := intToString (Some n) in
      match d with
      | O => s ++ m
      | _ =>
          let m := repeat 48%N (d + 1 - length m) ++ m in
          let k := length m in
          s ++ firstn (k - d) m ++ js "." ++ skipn (k - d) m
      end
  end.

(** [s.padStart(n, '0')] *)
Definition padStart0 (s : jsstring) (n : nat) : jsstring :=
  repeat 48%N (n - length s) ++ s.

(** Values that may also be an infinity: the running extremes of
    [calculateFlightStats] start at [-Infinity] and [Infinity]. *)
Inductive xint := XNaN | NegInfinity | PosInfinity | XInt (z : Z).

Definition xint_of (i : jint) : xint :=
  match i with Some z => XInt z | None => XNaN end.

(** [Math.max] and [Math.min] on such values: NaN is contagious. *)
Definition xmax (a b : xint) : xint :=
  match a, b with
  | XNaN, _ | _, XNaN => XNaN
  | PosInfinity, _ | _, PosInfinity => PosInfinity
  | NegInfinity, x | x, NegInfinity => x
  | XInt x, XInt y => XInt (Z.max x y)
  end.

Definition xmin (a b : xint) : xint :=
  match a, b with
  | XNaN, _ | _, XNaN => XNaN
  | NegInfinity, _ | _, NegInfinity => NegInfinity
  | PosInfinity, x | x, PosInfinity => x
  | XInt x, XInt y => XInt (Z.min x y)
  end.

(** The consecutive pairs [(l[i-1], l[i])], [i = 1 .. length - 1], that the
    [for (let i = 1; i < l.length; i++)] loops visit. *)
Fixpoint pairs {A} (l : list A) : list (A * A) :=
  match l with
  | a :: (b :: _) as t => (a, b) :: pairs t
  | _ => []
  end.

Definition Num (z : Z) : num := Some (IZR z).
Definition Int (z : Z) : jint := Some z.

Declare Scope num_scope.
Delimit Scope num_scope with num.
Bind Scope num_scope with num.
Notation "a + b" := (nadd a b) : num_scope.
Notation "a - b" := (nsub a b) : num_scope.
Notation "a * b" := (nmul a b) : num_scope.
Notation "a / b" := (ndiv a b) : num_scope.

Declare Scope jint_scope.
Delimit Scope jint_scope with jint.
Bind Scope jint_scope with jint.
Notation "a + b" := (iadd a b) : jint_scope.
Notation "a - b" := (isub a b) : jint_scope.
Notation "a * b" := (imul a b) : jint_scope.

End JS.

(* ================================================================= *)
(** ** class IGCParser *)

Module IGCParser.
Import JS.

Record FlightHeader := {
  date : option jsstring;
  pilot : jsstring;
  gliderType : jsstring;
  gliderReg : jsstring;
  gpsDatum : jsstring;
  firmwareVersion : option jsstring;
  hardwareVersion : option jsstring;
  loggerType : jsstring;
  competitionId : option jsstring
}.

Record Fix := {
  oid : nat;
  time : jsstring;
  timestamp : jint;
  latitude : num;
  longitude : num;
  validity : bool;
  pressureAltitude : jint;
  gnssAltitude : jint
}.

Record FlightStats := {
  duration : jint;
  startTime : option jsstring;
  endTime : option jsstring;
  maxAltitude : xint;
  minAltitude : xint;
  takeoffAltitude : jint;
  landingAltitude : jint;
  maxClimb : num;
  maxSink : num;
  distance : num
}.

Record FlightData := {
  header : FlightHeader;
  fixes : list Fix;
  task : option unit;
  stats : FlightStats
}.

(** *** Regular expressions of [parseHeader]

    A pattern head is a list of character classes; a regular expression
    without the sticky flag is tried at every position, leftmost first. *)
Definition pattern := list (char -> bool).

Definition lit (s : string) : pattern := map N.eqb (js s).

(** [H[FO]] followed by the three letters of a record type. *)
Definition HFO (tla : string) : pattern :=
  N.eqb 72 :: (fun c => N.eqb c 70 || N.eqb c 79) :: lit tla.

Fixpoint match_head (pat : pattern) (s : jsstring) : option jsstring :=
  match pat with
  | [] => Some s
  | p :: pat' =>
      match s with
      | c :: t => if p c then match_head pat' t else None
      | [] => None
      end
  end.

Fixpoint regex_search {A} (here : jsstring -> option A) (s : jsstring)
  : option A :=
  match here s with
  | Some r => Some r
  | None => match s with
            | [] => None
            | _ :: t => regex_search here t
            end
  end.

(** [line.match(/head/)] as a condition. *)
Definition regex_test (head : pattern) (line : jsstring) : bool :=
  match regex_search (match_head head) line with
  | Some _ => true
  | None => false
  end.

(** The tail of the value patterns (a lazy run of any characters, a colon,
    a greedy group of any characters): the lazy run stops at the first
    colon that is reached without crossing a line terminator; the group
    takes the rest up to a line terminator. *)
Fixpoint lazy_colon_group (s : jsstring) : option jsstring :=
  match s with
  | [] => None
  | c :: t =>
      if (c =? 58)%N then Some (takeWhile (fun c => negb (isLineTerminator c)) t)
      else if isLineTerminator c then None
      else lazy_colon_group t
  end.

(** [line.match] of a head followed by that tail: group 1 of the leftmost
    match. *)
Definition regex_group (head : pattern) (line : jsstring) : option jsstring :=
  regex_search
    (fun s => match match_head head s with
              | Some rest => lazy_colon_group rest
              | None => None
              end) line.

(** [line.match] of HFDTE followed by three groups of two digits: the
    three groups of the leftmost match. *)
Definition regex_HFDTE (line : jsstring)
  : option (jsstring * jsstring * jsstring) :=
  regex_search
    (fun s => match match_head (lit "HFDTE" ++ repeat isDigit 6) s with
              | Some _ => Some (substr s 5 2, substr s 7 2, substr s 9 2)
              | None => None
              end) line.

(** [match && match[1].trim()] then the assignment of [match[1].trim()]:
    the value a line gives to a field, if any. *)
Definition header_value (head : pattern) (line : jsstring) : option jsstring :=
  match regex_group head line with
  | Some g => match trim g with
              | [] => None
              | v => Some v
              end
  | None => None
  end.

Definition initialHeader : FlightHeader :=
  {| date := None;
     pilot := js "Unknown";
     gliderType := js "Unknown";
     gliderReg := js "Unknown";
     gpsDatum := js "WGS84";
     firmwareVersion := None;
     hardwareVersion := None;
     loggerType := js "Unknown";
     competitionId := None |}.

Definition set_date (h : FlightHeader) v :=
  {| date := v; pilot := pilot h; gliderType := gliderType h;
     gliderReg := gliderReg h; gpsDatum := gpsDatum h;
     firmwareVersion := firmwareVersion h;
     hardwareVersion := hardwareVersion h; loggerType := loggerType h;
     competitionId := competitionId h |}.
Definition set_pilot (h : FlightHeader) v :=
  {| date := date h; pilot := v; gliderType := gliderType h;
     gliderReg := gliderReg h; gpsDatum := gpsDatum h;
     firmwareVersion := firmwareVersion h;
     hardwareVersion := hardwareVersion h; loggerType := loggerType h;
     competitionId := competitionId h |}.
Definition set_gliderType (h : FlightHeader) v :=
  {| date := date h; pilot := pilot h; gliderType := v;
     gliderReg := gliderReg h; gpsDatum := gpsDatum h;
     firmwareVersion := firmwareVersion h;
     hardwareVersion := hardwareVersion h; loggerType := loggerType h;
     competitionId := competitionId h |}.
Definition set_gliderReg (h : FlightHeader) v :=
  {| date := date h; pilot := pilot h; gliderType := gliderType h;
     gliderReg := v; gpsDatum := gpsDatum h;
     firmwareVersion := firmwareVersion h;
     hardwareVersion := hardwareVersion h; loggerType := loggerType h;
     competitionId := competitionId h |}.
Definition set_competitionId (h : FlightHeader) v :=
  {| date := date h; pilot := pilot h; gliderType := gliderType h;
     gliderReg := gliderReg h; gpsDatum := gpsDatum h;
     firmwareVersion := firmwareVersion h;
     hardwareVersion := hardwareVersion h; loggerType := loggerType h;
     competitionId := v |}.
Definition set_firmwareVersion (h : FlightHeader) v :=
  {| date := date h; pilot := pilot h; gliderType := gliderType h;
     gliderReg := gliderReg h; gpsDatum := gpsDatum h;
     firmwareVersion := v;
     hardwareVersion := hardwareVersion h; loggerType := loggerType h;
     competitionId := competitionId h |}.
Definition set_hardwareVersion (h : FlightHeader) v :=
  {| date := date h; pilot := pilot h; gliderType := gliderType h;
     gliderReg := gliderReg h; gpsDatum := gpsDatum h;
     firmwareVersion := firmwareVersion h;
     hardwareVersion := v; loggerType := loggerType h;
     competitionId := competitionId h |}.

(** The body of [lines.forEach(line => ...)] in [parseHeader]. *)
Definition parseHeader_line (header : FlightHeader) (line : jsstring)
  : FlightHeader :=
  if startsWith line (js "HFDTE") then
    match regex_HFDTE line with
    | Some (day, month, yy) =>
        let year := js "20" ++ yy in
        set_date header (Some (year ++ js "-" ++ month ++ js "-" ++ day))
    | None => header
    end
  else if regex_test (HFO "PLT") line then
    match header_value (HFO "PLT") line with
    | Some v => set_pilot header v
    | None => header
    end
  else if regex_test (HFO "GTY") line then
    match header_value (HFO "GTY") line with
    | Some v => set_gliderType header v
    | None => header
    end
  else if regex_test (HFO "GID") line then
    match header_value (HFO "GID") line with
    | Some v => set_gliderReg header v
    | None => header
    end
  else if regex_test (HFO "CID") line then
    match header_value (HFO "CID") line with
    | Some v => set_competitionId header (Some v)
    | None => header
    end
  else if startsWith line (js "HFRFW") then
    match header_value (lit "HFRFW") line with
    | Some v => set_firmwareVersion header (Some v)
    | None => header
    end
  else if startsWith line (js "HFRHW") then
    match header_value (lit "HFRHW") line with
    | Some v => set_hardwareVersion header (Some v)
    | None => header
    end
  else header.

Definition parseHeader (lines : list jsstring) : FlightHeader :=
  fold_left parseHeader_line lines initialHeader.

(** [parseBRecord]: [None] is the [null] of a line that is too short; the
    object literal it returns otherwise is allocated with identity [o]. *)
Definition parseBRecord (o : nat) (line : jsstring) : option Fix :=
  if (length line <? 35)%nat then None
  else
    let time := substr line 1 6 in
    let hours := parseInt (substr time 0 2) in
    let minutes := parseInt (substr time 2 2) in
    let seconds := parseInt (substr time 4 2) in
    let latDegrees := parseInt (substr line 7 2) in
    let latMinutes := parseInt (substr line 9 2) in
    let latDecimalMinutes :=
      (of_int (parseInt (substr line 11 3)) / Num 1000)%num in
    let latDirection :=
      if String_eqb (charAt line 14) (js "N") then Num 1 else Num (-1) in
    let latitude :=
      (latDirection *
       (of_int latDegrees + (of_int latMinutes + latDecimalMinutes) / Num 60))%num in
    let lonDegrees := parseInt (substr line 15 3) in
    let lonMinutes := parseInt (substr line 18 2) in
    let lonDecimalMinutes :=
      (of_int (parseInt (substr line 20 3)) / Num 1000)%num in
    let lonDirection :=
      if String_eqb (charAt line 23) (js "E") then Num 1 else Num (-1) in
    let longitude :=
      (lonDirection *
       (of_int lonDegrees + (of_int lonMinutes + lonDecimalMinutes) / Num 60))%num in
    let validity := charAt line 24 in
    let pressureAltitude := parseInt (substr line 25 5) in
    let gnssAltitude := parseInt (substr line 30 5) in
    Some
      {| oid := o;
         time := padStart0 (intToString hours) 2 ++ js ":"
                 ++ padStart0 (intToString minutes) 2 ++ js ":"
                 ++ padStart0 (intToString seconds) 2;
         timestamp := (hours * Int 3600 + minutes * Int 60 + seconds)%jint;
         latitude := latitude;
         longitude := longitude;
         validity := String_eqb validity (js "A");
         pressureAltitude := pressureAltitude;
         gnssAltitude := gnssAltitude |}.

Definition toRadians (degrees : num) : num :=
  (degrees * Math_PI / Num 180)%num.

(** [calculateDistance]: the haversine formula. *)
Definition calculateDistance (lat1 lon1 lat2 lon2 : num) : num :=
  let R := Num 6371 in
  let dLat := toRadians (lat2 - lat1)%num in
  let dLon := toRadians (lon2 - lon1)%num in
  let a :=
    (Math_sin (dLat / Num 2) * Math_sin (dLat / Num 2) +
     Math_cos (toRadians lat1) * Math_cos (toRadians lat2) *
     Math_sin (dLon / Num 2) * Math_sin (dLon / Num 2))%num in
  let c := (Num 2 * Math_atan2 (Math_sqrt a) (Math_sqrt (Num 1 - a)))%num in
  (R * c)%num.

(** The [duration] of [calculateFlightStats], from the first and the last
    time stamp. *)
Definition flightDuration (startTimestamp endTimestamp : jint) : jint :=
  let duration := (endTimestamp - startTimestamp)%jint in
  if ilt duration (Int 0) then (duration + Int (24 * 3600))%jint
  else duration.

(** One round of the climb and sink loop, on [(fixes[i-1], fixes[i])]. *)
Definition climbSink_step (acc : num * num) (p : Fix * Fix) : num * num :=
  let '(maxClimb, maxSink) := acc in
  let '(prev, cur) := p in
  let timeDiff := (timestamp cur - timestamp prev)%jint in
  if igt timeDiff (Int 0) then
    let altDiff := (pressureAltitude cur - pressureAltitude prev)%jint in
    let rate := (of_int altDiff / of_int timeDiff * Num 60)%num in
    (Math_max maxClimb rate, Math_min maxSink rate)
  else acc.

(** [calculateFlightStats]: the value assigned to [flightData.stats]. *)
Definition calculateFlightStats (fixes : list Fix) : FlightStats :=
  match fixes with
  | [] =>
      {| duration := Int 0; startTime := None; endTime := None;
         maxAltitude := XInt 0; minAltitude := XInt 0;
         takeoffAltitude := Int 0; landingAltitude := Int 0;
         maxClimb := Num 0; maxSink := Num 0; distance := Num 0 |}
  | first :: _ =>
      let final := last fixes first in
      let '(maxClimb, maxSink) :=
        fold_left climbSink_step (pairs fixes) (Num 0, Num 0) in
      {| duration := flightDuration (timestamp first) (timestamp final);
         startTime := Some (time first);
         endTime := Some (time final);
         maxAltitude :=
           fold_left (fun m fix_ => xmax m (xint_of (pressureAltitude fix_)))
                     fixes NegInfinity;
         minAltitude :=
           fold_left (fun m fix_ => xmin m (xint_of (pressureAltitude fix_)))
                     fixes PosInfinity;
         takeoffAltitude := pressureAltitude first;
         landingAltitude := pressureAltitude final;
         maxClimb := maxClimb;
         maxSink := Math_abs maxSink;
         distance :=
           fold_left
             (fun distance p =>
                (distance +
                 calculateDistance (latitude (fst p)) (longitude (fst p))
                                   (latitude (snd p)) (longitude (snd p)))%num)
             (pairs fixes) (Num 0) |}
  end.

(** The body of [lines.forEach(line => ...)] in [parse]: a B record that
    decodes is pushed, every other line leaves the fixes as they are. *)
Definition parse_line (fixes : list Fix) (line : jsstring) : list Fix :=
  if startsWith line (js "B") then
    match parseBRecord (length fixes) line with
    | Some fix_ => fixes ++ [fix_]
    | None => fixes
    end
  else fixes.

Definition parse_lines (lines : list jsstring) : FlightData :=
  let fixes := fold_left parse_line lines [] in
  {| header := parseHeader lines;
     fixes := fixes;
     task := None;
     stats := calculateFlightStats fixes |}.

Definition parse (igcContent : jsstring) : FlightData :=
  parse_lines (split_nl igcContent).

(** [formatDuration], on the [duration] of the statistics (an integer or
    NaN): [Math.floor] of a quotient by a positive constant is the floor
    division, [%] is the remainder with the sign of the dividend. *)
Definition formatDuration (seconds : jint) : jsstring :=
  let hours := option_map (fun s => (s / 3600)%Z) seconds in
  let minutes := option_map (fun s => (Z.rem s 3600 / 60)%Z) seconds in
  let secs := option_map (fun s => Z.rem s 60) seconds in
  padStart0 (intToString hours) 2 ++ js ":"
  ++ padStart0 (intToString minutes) 2 ++ js ":"
  ++ padStart0 (intToString secs) 2.

End IGCParser.

(* ================================================================= *)
(** ** class WaypointGenerator *)

Module WaypointGenerator.
Import JS IGCParser.

Record Waypoint := {
  name : jsstring;
  lat : num;
  lng : num;
  altitude : jint;
  time : jsstring
}.

(** The fields of the instance that the waypoint code reads or writes (the
    map and its markers belong to the display). *)
Record WaypointGenerator := {
  waypoints : list Waypoint;
  flightDistance : num;
  currentOptimizationLevel : jsstring
}.

Definition constructor : WaypointGenerator :=
  {| waypoints := []; flightDistance := Num 0;
     currentOptimizationLevel := js "medium" |}.

Inductive CandidateType := turn | altitude_change.

(** An entry of [possibleWaypoints]; [type] is ['turn'] or ['altitude']. *)
Record Candidate := {
  fix_ : Fix;
  importance : num;
  type : CandidateType
}.

(** *** Geometry *)

Definition calculateHaversineDistance (lat1 lon1 lat2 lon2 : num) : num :=
  let R := Num 6371 in
  let dLat := ((lat2 - lat1) * Math_PI / Num 180)%num in
  let dLon := ((lon2 - lon1) * Math_PI / Num 180)%num in
  let a :=
    (Math_sin (dLat / Num 2) * Math_sin (dLat / Num 2) +
     Math_cos (lat1 * Math_PI / Num 180) * Math_cos (lat2 * Math_PI / Num 180) *
     Math_sin (dLon / Num 2) * Math_sin (dLon / Num 2))%num in
  let c := (Num 2 * Math_atan2 (Math_sqrt a) (Math_sqrt (Num 1 - a)))%num in
  (R * c)%num.

Definition calculateBearing (lat1 lon1 lat2 lon2 : num) : num :=
  let lat1Rad := (lat1 * Math_PI / Num 180)%num in
  let lat2Rad := (lat2 * Math_PI / Num 180)%num in
  let lonDiffRad := ((lon2 - lon1) * Math_PI / Num 180)%num in
  let y := (Math_sin lonDiffRad * Math_cos lat2Rad)%num in
  let x := (Math_cos lat1Rad * Math_sin lat2Rad -
            Math_sin lat1Rad * Math_cos lat2Rad * Math_cos lonDiffRad)%num in
  let bearing := Math_atan2 y x in
  let bearing := (bearing * Num 180 / Math_PI)%num in
  let bearing := nrem (bearing + Num 360)%num (Num 360) in
  bearing.

Definition calculateCourseChange (lat1 lon1 lat2 lon2 lat3 lon3 : num) : num :=
  let bearing1 := calculateBearing lat1 lon1 lat2 lon2 in
  let bearing2 := calculateBearing lat2 lon2 lat3 lon3 in
  let diff := Math_abs (bearing1 - bearing2)%num in
  let diff := if ngt diff (Num 180) then (Num 360 - diff)%num else diff in
  diff.

Definition calculateTotalDistance (fixes : list Fix) : num :=
  if (length fixes <? 2)%nat then Num 0
  else
    fold_left
      (fun totalDistance p =>
         (totalDistance +
          calculateHaversineDistance (latitude (fst p)) (longitude (fst p))
                                     (latitude (snd p)) (longitude (snd p)))%num)
      (pairs fixes) (Num 0).

(** *** The waypoint budget *)

(** The [switch (level)] of [getTargetWaypointCount]. *)
Definition baseCount (distance : num) (level : jsstring) : jint :=
  if String_eqb level (js "low") then
    imin (Int 12) (Math_ceil (distance / Num 15))
  else if String_eqb level (js "medium") then
    imin (Int 8) (Math_ceil (distance / Num 25))
  else if String_eqb level (js "high") then
    imin (Int 5) (Math_ceil (distance / Num 40))
  else
    imin (Int 8) (Math_ceil (distance / Num 25)).

Definition getTargetWaypointCount (distance : num) (level : jsstring) : jint :=
  let MAX_WAYPOINTS := Int 15 in
  let baseCount := baseCount distance level in
  let finalCount :=
    if nle distance (Num 20) then
      imax (Int 2) baseCount
    else if nle distance (Num 100) then
      imax (Int 3) (imin (MAX_WAYPOINTS - Int 2) (baseCount + Int 1))%jint
    else if nle distance (Num 300) then
      imax (Int 4) (imin (MAX_WAYPOINTS - Int 2) (baseCount + Int 2))%jint
    else
      imax (Int 5) (imin (MAX_WAYPOINTS - Int 2) (baseCount + Int 3))%jint in
  imin (MAX_WAYPOINTS - Int 2)%jint finalCount.

(** *** Arrays *)

(** [Array.prototype.sort(comparefn)]: the sort is stable; [after a b]
    says that [comparefn(a, b) > 0], that is, [a] goes behind [b]. *)
Fixpoint sort_insert {A} (after : A -> A -> bool) (x : A) (l : list A)
  : list A :=
  match l with
  | [] => [x]
  | y :: t => if after x y then y :: sort_insert after x t else x :: l
  end.

Definition Array_sort {A} (after : A -> A -> bool) (l : list A) : list A :=
  fold_right (sort_insert after) [] l.

(** [l.slice(0, end)]: NaN counts as 0, a negative end counts from the
    back. *)
Definition Array_slice0 {A} (l : list A) (end_ : jint) : list A :=
  let len := Z.of_nat (length l) in
  let relativeEnd := match end_ with Some z => z | None => 0%Z end in
  let final :=
    if (relativeEnd <? 0)%Z then Z.max (len + relativeEnd) 0
    else Z.min relativeEnd len in
  firstn (Z.to_nat final) l.

(** [fixes.indexOf(f)], searching from index [i]: strict equality of
    objects is identity; -1 when absent. *)
Fixpoint indexOf_from (fixes : list Fix) (f : Fix) (i : Z) : Z :=
  match fixes with
  | [] => (-1)%Z
  | g :: t => if (oid g =? oid f)%nat then i else indexOf_from t f (i + 1)
  end.

Definition indexOf (fixes : list Fix) (f : Fix) : Z := indexOf_from fixes f 0.

(** The consecutive triples [(l[i-1], l[i], l[i+1])], [i = 1 .. length - 2]. *)
Fixpoint triples {A} (l : list A) : list (A * A * A) :=
  match l with
  | a :: (b :: c :: _) as t => (a, b, c) :: triples t
  | _ => []
  end.

(** *** generateWaypoints *)

Definition endpoint (label : string) (f : Fix) : Waypoint :=
  {| name := js label;
     lat := latitude f;
     lng := longitude f;
     altitude := pressureAltitude f;
     time := IGCParser.time f |}.

(** Step 1: [for (let i = 0; i < fixes.length; i += sampleRate)], pushing
    [fixes[i]]; [fuel] bounds the number of rounds. *)
Fixpoint sampleLoop (fuel : nat) (fixes : list Fix) (d : Fix)
  (sampleRate i : nat) (sampledFixes : list Fix) : list Fix :=
  match fuel with
  | O => sampledFixes
  | S fuel' =>
      if (i <? length fixes)%nat then
        sampleLoop fuel' fixes d sampleRate (i + sampleRate)
                   (sampledFixes ++ [nth i fixes d])
      else sampledFixes
  end.

Definition turnThreshold (level : jsstring) : num :=
  if String_eqb level (js "low") then Num 30
  else if String_eqb level (js "medium") then Num 45
  else Num 60.

(** Step 2: one round of the scan, at [currentFix] between its sampled
    neighbours: the entries it pushes on [possibleWaypoints]. *)
Definition scan_step (level : jsstring) (t : Fix * Fix * Fix)
  : list Candidate :=
  let '(prevFix, currentFix, nextFix) := t in
  let distToPrev :=
    calculateHaversineDistance (latitude prevFix) (longitude prevFix)
                               (latitude currentFix) (longitude currentFix) in
  if nlt distToPrev (Some (1 / 10)%R) then []
  else
    let courseChange :=
      calculateCourseChange (latitude prevFix) (longitude prevFix)
                            (latitude currentFix) (longitude currentFix)
                            (latitude nextFix) (longitude nextFix) in
    let altChangePrev :=
      iabs (pressureAltitude currentFix - pressureAltitude prevFix)%jint in
    let altChangeNext :=
      iabs (pressureAltitude nextFix - pressureAltitude currentFix)%jint in
    (if ngt courseChange (turnThreshold level) then
       [ {| fix_ := currentFix;
            importance := (courseChange * Num 2)%num;
            type := turn |} ]
     else [])
    ++
    (if igt altChangePrev (Int 100) && igt altChangeNext (Int 100) then
       [ {| fix_ := currentFix;
            importance := (of_int (altChangePrev + altChangeNext)%jint / Num 50)%num;
            type := altitude_change |} ]
     else []).

(** The [forEach] that names and pushes a selected candidate. *)
Definition push_selected (waypoints : list Waypoint) (waypoint : Candidate)
  : list Waypoint :=
  let namePrefix :=
    match type waypoint with turn => js "TURN" | altitude_change => js "WP" end in
  waypoints ++
  [ {| name := namePrefix ++ natToString (length waypoints);
       lat := latitude (fix_ waypoint);
       lng := longitude (fix_ waypoint);
       altitude := pressureAltitude (fix_ waypoint);
       time := IGCParser.time (fix_ waypoint) |} ].

(** The guard of the early return: [maxWaypoints <= 0]. *)
Definition only_endpoints (maxWaypoints : jint) : bool :=
  ile maxWaypoints (Int 0).

(** [generateWaypoints]: the array it returns and the instance after the
    call. *)
Definition generateWaypoints (this : WaypointGenerator)
  (flightData : FlightData) (level : jsstring)
  : list Waypoint * WaypointGenerator :=
  match fixes flightData with
  | [] => ([], this)
  | takeoff :: _ =>
      let fixes := fixes flightData in
      let flightDistance := calculateTotalDistance fixes in
      let maxWaypoints := getTargetWaypointCount flightDistance level in
      let waypoints := [endpoint "TAKEOFF" takeoff] in
      let landing := last fixes takeoff in
      let result :=
        if only_endpoints maxWaypoints then
          waypoints ++ [endpoint "LANDING" landing]
        else
          let sampleRate := Nat.max 1 (length fixes / 200) in
          let sampledFixes :=
            sampleLoop (length fixes) fixes takeoff sampleRate 0 [] in
          let sampledFixes :=
            if negb (oid (last sampledFixes takeoff) =? oid landing)%nat
            then sampledFixes ++ [landing] else sampledFixes in
          let possibleWaypoints :=
            flat_map (scan_step level) (triples sampledFixes) in
          let possibleWaypoints :=
            Array_sort
              (fun a b => ngt (importance b - importance a)%num (Num 0))
              possibleWaypoints in
          let selectedWaypoints := Array_slice0 possibleWaypoints maxWaypoints in
          let selectedWaypoints :=
            Array_sort
              (fun a b =>
                 (0 <? indexOf fixes (fix_ a) - indexOf fixes (fix_ b))%Z)
              selectedWaypoints in
          let waypoints := fold_left push_selected selectedWaypoints waypoints in
          waypoints ++ [endpoint "LANDING" landing] in
      (result,
       {| waypoints := result;
          flightDistance := flightDistance;
          currentOptimizationLevel := level |})
  end.

(** *** Export *)

Inductive QRResult :=
| NoElement                  (* no element of that id: nothing is done *)
| NoWaypointData             (* 'No waypoint data available' *)
| TooManyWaypoints           (* 'Too many waypoints for QR code' *)
| NullDereference            (* [data.length] of [null] *)
| QRCode (data : jsstring).  (* [data] is handed to [QRCode.toCanvas] *)

Definition dq : jsstring := [34%N].
Definition nl : jsstring := [10%N].

Section Serialization.

(** [Number.prototype.toFixed] and the clock are the runtime's:
    [toFixed d x] is [x.toFixed(d)], [now] is [new Date().toISOString()]. *)
Variable toFixed : nat -> num -> jsstring.
Variable now : jsstring.

Definition generateGPX (this : WaypointGenerator) : option jsstring :=
  match waypoints this with
  | [] => None
  | _ =>
      let gpx := js "<?xml version=" ++ dq ++ js "1.0" ++ dq ++ js " encoding="
                 ++ dq ++ js "UTF-8" ++ dq ++ js "?>" ++ nl in
      let gpx := gpx ++ js "<gpx version=" ++ dq ++ js "1.1" ++ dq
                 ++ js " creator=" ++ dq ++ js "IGC Flight Log Viewer" ++ dq
                 ++ js " xmlns=" ++ dq ++ js "http://www.topografix.com/GPX/1/1"
                 ++ dq ++ js ">" ++ nl in
      let gpx := gpx ++ js "  <metadata>" ++ nl in
      let gpx := gpx ++ js "    <name>Optimized Flight Waypoints ("
                 ++ currentOptimizationLevel this ++ js ")</name>" ++ nl in
      let gpx := gpx ++ js "    <time>" ++ now ++ js "</time>" ++ nl in
      let gpx := gpx ++ js "  </metadata>" ++ nl in
      let gpx :=
        fold_left
          (fun gpx waypoint =>
             let gpx := gpx ++ js "  <wpt lat=" ++ dq ++ toFixed 6 (lat waypoint)
                        ++ dq ++ js " lon=" ++ dq ++ toFixed 6 (lng waypoint)
                        ++ dq ++ js ">" ++ nl in
             let gpx := gpx ++ js "    <ele>" ++ intToString (altitude waypoint)
                        ++ js "</ele>" ++ nl in
             let gpx := gpx ++ js "    <name>" ++ name waypoint ++ js "</name>"
                        ++ nl in
             gpx ++ js "  </wpt>" ++ nl)
          (waypoints this) gpx in
      let gpx := gpx ++ js "  <trk>" ++ nl in
      let gpx := gpx ++ js "    <name>Optimized Flight Path ("
                 ++ currentOptimizationLevel this ++ js ")</name>" ++ nl in
      let gpx := gpx ++ js "    <trkseg>" ++ nl in
      let gpx :=
        fold_left
          (fun gpx waypoint =>
             let gpx := gpx ++ js "      <trkpt lat=" ++ dq
                        ++ toFixed 6 (lat waypoint) ++ dq ++ js " lon=" ++ dq
                        ++ toFixed 6 (lng waypoint) ++ dq ++ js ">" ++ nl in
             let gpx := gpx ++ js "        <ele>"
                        ++ intToString (altitude waypoint) ++ js "</ele>" ++ nl in
             gpx ++ js "      </trkpt>" ++ nl)
          (waypoints this) gpx in
      let gpx := gpx ++ js "    </trkseg>" ++ nl in
      let gpx := gpx ++ js "  </trk>" ++ nl in
      let gpx := gpx ++ js "</gpx>" in
      Some gpx
  end.

Definition generateCSV (this : WaypointGenerator) : option jsstring :=
  match waypoints this with
  | [] => None
  | _ =>
      let csv := js "name,latitude,longitude,altitude" ++ nl in
      Some
        (fold_left
           (fun csv waypoint =>
              csv ++ name waypoint ++ js "," ++ toFixed 6 (lat waypoint)
              ++ js "," ++ toFixed 6 (lng waypoint) ++ js ","
              ++ intToString (altitude waypoint) ++ nl)
           (waypoints this) csv)
  end.

Definition generateCompactCSV (this : WaypointGenerator) : option jsstring :=
  match waypoints this with
  | [] => None
  | _ =>
      let csv := [] in
      Some
        (fold_left
           (fun csv waypoint =>
              csv ++ name waypoint ++ js "," ++ toFixed 5 (lat waypoint)
              ++ js "," ++ toFixed 5 (lng waypoint) ++ nl)
           (waypoints this) csv)
  end.

(** [generateQRCode]: [qrElement] tells whether the element exists; the
    result is what the element is left to show. *)
Definition generateQRCode (this : WaypointGenerator) (qrElement : bool)
  (format : jsstring) : QRResult :=
  if negb qrElement then NoElement
  else
    let data :=
      if String_eqb format (js "gpx") then generateGPX this
      else generateCSV this in
    match data with
    | None | Some [] => NoWaypointData
    | Some data =>
        if (1500 <? length data)%nat then
          match generateCompactCSV this with
          | None => NullDereference
          | Some data =>
              if (1500 <? length data)%nat then TooManyWaypoints
              else QRCode data
          end
        else QRCode data
    end.

End Serialization.

Definition toRadians (degrees : num) : num :=
  (degrees * Math_PI / Num 180)%num.


End WaypointGenerator.

(* ================================================================= *)
(** ** class FlightDisplay and class AltitudeDisplay: the formatters *)

Module FlightDisplay.
Import JS.

(** [formatDuration], applied to [stats.duration]. *)
Definition formatDuration (seconds : jint) : jsstring :=
  let hours := option_map (fun s => (s / 3600)%Z) seconds in
  let minutes := option_map (fun s => (Z.rem s 3600 / 60)%Z) seconds in
  let secs := option_map (fun s => Z.rem s 60) seconds in
  padStart0 (intToString hours) 2 ++ js ":"
  ++ padStart0 (intToString minutes) 2 ++ js ":"
  ++ padStart0 (intToString secs) 2.

End FlightDisplay.

Module AltitudeDisplay.
Import JS.

(** [formatTime], applied to the entries of [timeData] (differences of
    time stamps). *)
Definition formatTime (seconds : jint) : jsstring :=
  let hours := option_map (fun s => (s / 3600)%Z) seconds in
  let minutes := option_map (fun s => (Z.rem s 3600 / 60)%Z) seconds in
  padStart0 (intToString hours) 2 ++ js ":"
  ++ padStart0 (intToString minutes) 2.

End AltitudeDisplay.

(* ================================================================= *)
(** ** Vocabulary of the properties *)

Module Props.
Import JS IGCParser WaypointGenerator.

(** The header fields that [parseHeader] assigns. *)
Inductive Field :=
| FDate | FPilot | FGliderType | FGliderReg | FCompetitionId
| FFirmwareVersion | FHardwareVersion.

Definition get (f : Field) (h : FlightHeader) : option jsstring :=
  match f with
  | FDate => date h
  | FPilot => Some (pilot h)
  | FGliderType => Some (gliderType h)
  | FGliderReg => Some (gliderReg h)
  | FCompetitionId => competitionId h
  | FFirmwareVersion => firmwareVersion h
  | FHardwareVersion => hardwareVersion h
  end.

Definition Field_eqb (f g : Field) : bool :=
  match f, g with
  | FDate, FDate | FPilot, FPilot | FGliderType, FGliderType
  | FGliderReg, FGliderReg | FCompetitionId, FCompetitionId
  | FFirmwareVersion, FFirmwareVersion
  | FHardwareVersion, FHardwareVersion => true
  | _, _ => false
  end.

(** The field whose prefix a line matches, in the order of the tests of
    [parseHeader], and the non-empty value the line carries for it. *)
Definition assigns (line : jsstring) : option (Field * jsstring) :=
  let value f head := option_map (pair f) (header_value head line) in
  if startsWith line (js "HFDTE") then
    match regex_HFDTE line with
    | Some (day, month, yy) =>
        Some (FDate, js "20" ++ yy ++ js "-" ++ month ++ js "-" ++ day)
    | None => None
    end
  else if regex_test (HFO "PLT") line then value FPilot (HFO "PLT")
  else if regex_test (HFO "GTY") line then value FGliderType (HFO "GTY")
  else if regex_test (HFO "GID") line then value FGliderReg (HFO "GID")
  else if regex_test (HFO "CID") line then value FCompetitionId (HFO "CID")
  else if startsWith line (js "HFRFW") then value FFirmwareVersion (lit "HFRFW")
  else if startsWith line (js "HFRHW") then value FHardwareVersion (lit "HFRHW")
  else None.

Definition assigns_field (f : Field) (line : jsstring) : bool :=
  match assigns line with
  | Some (g, _) => Field_eqb f g
  | None => false
  end.

(** First match wins: when two lines carry a value for the same field, the
    header has the value of the earlier one. *)
Definition first_match_wins : Prop :=
  forall (pre mid post : list jsstring) (l1 l2 : jsstring) (f : Field)
         (v1 v2 : jsstring),
    assigns l1 = Some (f, v1) ->
    assigns l2 = Some (f, v2) ->
    forallb (fun l => negb (assigns_field f l)) pre = true ->
    get f (parseHeader (pre ++ l1 :: mid ++ l2 :: post)) = Some v1.

(** Removing a short line leaves the whole parse result as it is. *)
Definition short_line_is_inert : Prop :=
  forall (text text' : jsstring) (pre post : list jsstring) (line : jsstring),
    (length line < 35)%nat ->
    split_nl text = pre ++ line :: post ->
    split_nl text' = pre ++ post ->
    parse text = parse text'.

(** The assignment that [parseHeader] makes for a field. *)
Definition assign (f : Field) (v : jsstring) (h : FlightHeader)
  : FlightHeader :=
  match f with
  | FDate => set_date h (Some v)
  | FPilot => set_pilot h v
  | FGliderType => set_gliderType h v
  | FGliderReg => set_gliderReg h v
  | FCompetitionId => set_competitionId h (Some v)
  | FFirmwareVersion => set_firmwareVersion h (Some v)
  | FHardwareVersion => set_hardwareVersion h (Some v)
  end.

(** The waypoints of [generateWaypoints] with the two uses of the level
    told apart: [budgetLevel] goes to [getTargetWaypointCount], [scanLevel]
    to the turn threshold of the scan. *)
Definition waypointsWith (budgetLevel scanLevel : jsstring) (fixes : list Fix)
  : list Waypoint :=
  match fixes with
  | [] => []
  | takeoff :: _ =>
      let maxWaypoints :=
        getTargetWaypointCount (calculateTotalDistance fixes) budgetLevel in
      let waypoints := [endpoint "TAKEOFF" takeoff] in
      let landing := last fixes takeoff in
      if only_endpoints maxWaypoints then
        waypoints ++ [endpoint "LANDING" landing]
      else
        let sampleRate := Nat.max 1 (length fixes / 200) in
        let sampledFixes :=
          sampleLoop (length fixes) fixes takeoff sampleRate 0 [] in
        let sampledFixes :=
          if negb (oid (last sampledFixes takeoff) =? oid landing)%nat
          then sampledFixes ++ [landing] else sampledFixes in
        let possibleWaypoints :=
          Array_sort
            (fun a b => ngt (importance b - importance a)%num (Num 0))
            (flat_map (scan_step scanLevel) (triples sampledFixes)) in
        let selectedWaypoints :=
          Array_sort
            (fun a b =>
               (0 <? indexOf fixes (fix_ a) - indexOf fixes (fix_ b))%Z)
            (Array_slice0 possibleWaypoints maxWaypoints) in
        fold_left push_selected selectedWaypoints waypoints
        ++ [endpoint "LANDING" landing]
  end.

(** Sample data for the instances. *)
Definition sampleFix (o : nat) (seconds : Z) : Fix :=
  {| oid := o; IGCParser.time := js "00:00:00"; timestamp := Int seconds;
     latitude := Num 46; longitude := Num 7; validity := true;
     pressureAltitude := Int 1000; gnssAltitude := Int 1000 |}.

Definition sampleFlight (fixes : list Fix) : FlightData :=
  {| header := initialHeader; fixes := fixes; task := None;
     stats := calculateFlightStats fixes |}.

Definition sampleWaypoint (label : jsstring) : Waypoint :=
  {| name := label; lat := Num 46; lng := Num 7; altitude := Int 1000;
     time := js "00:00:00" |}.

(** The payload that [generateQRCode] builds first, for the format asked. *)
Definition primaryPayload (toFixed : nat -> num -> jsstring) (now : jsstring)
  (this : WaypointGenerator) (format : jsstring) : option jsstring :=
  if String_eqb format (js "gpx") then generateGPX toFixed now this
  else generateCSV toFixed this.

(** A row of the compact form: the name and the coordinates with five
    decimals, no altitude. *)
Definition compactRow (toFixed : nat -> num -> jsstring) (w : Waypoint)
  : jsstring :=
  name w ++ js "," ++ toFixed 5%nat (lat w) ++ js "," ++ toFixed 5%nat (lng w)
  ++ nl.

Definition sampleNow : jsstring := js "2024-05-01T10:00:00.000Z".

Definition sampleGenerator : WaypointGenerator :=
  {| waypoints := [sampleWaypoint (js "TAKEOFF"); sampleWaypoint (js "LANDING")];
     flightDistance := Num 0;
     currentOptimizationLevel := js "medium" |}.

End Props.

(* ================================================================= *)
(** ** Vocabulary of the further properties *)

Module MoreProps.
Import JS IGCParser WaypointGenerator Props.

(** A line that [parse] turns into a fix: a B record of at least 35
    characters. *)
Definition isFixLine (line : jsstring) : bool :=
  startsWith line (js "B") && (35 <=? length line)%nat.

(** Two decimal digits as a number. *)
Definition twoDigits (c1 c2 : char) : Z :=
  (10 * digitValue c1 + digitValue c2)%Z.

(** The quantity [a] of the haversine formula, on real coordinates. *)
Definition haversine_a (lat1 lon1 lat2 lon2 : R) : R :=
  (sin ((lat2 - lat1) * PI / 180 / 2) * sin ((lat2 - lat1) * PI / 180 / 2) +
   cos (lat1 * PI / 180) * cos (lat2 * PI / 180) *
   sin ((lon2 - lon1) * PI / 180 / 2) * sin ((lon2 - lon1) * PI / 180 / 2))%R.

(** Steps of [generateWaypoints], named: the sampled fixes (step 1), the
    candidates of the scan (step 2), the candidates that are kept, in path
    order (steps 3 to 5), and the waypoints pushed for them. *)
Definition sampled (fixes : list Fix) : list Fix :=
  match fixes with
  | [] => []
  | takeoff :: _ =>
      let landing := last fixes takeoff in
      let sampleRate := Nat.max 1 (length fixes / 200) in
      let sampledFixes :=
        sampleLoop (length fixes) fixes takeoff sampleRate 0 [] in
      if negb (oid (last sampledFixes takeoff) =? oid landing)%nat
      then sampledFixes ++ [landing] else sampledFixes
  end.

Definition candidates (fixes : list Fix) (level : jsstring) : list Candidate :=
  flat_map (scan_step level) (triples (sampled fixes)).

Definition ranked (fixes : list Fix) (level : jsstring) : list Candidate :=
  Array_sort (fun a b => ngt (importance b - importance a)%num (Num 0))
             (candidates fixes level).

Definition selected (fixes : list Fix) (level : jsstring) : list Candidate :=
  Array_sort
    (fun a b => (0 <? indexOf fixes (fix_ a) - indexOf fixes (fix_ b))%Z)
    (Array_slice0 (ranked fixes level)
       (getTargetWaypointCount (calculateTotalDistance fixes) level)).

(** The candidates that the budget leaves out: the tail of the ranking. *)
Definition dropped (fixes : list Fix) (level : jsstring) : list Candidate :=
  skipn (length (Array_slice0 (ranked fixes level)
                   (getTargetWaypointCount (calculateTotalDistance fixes) level)))
        (ranked fixes level).

(** The importance of a candidate, as a real (0 for NaN). *)
Definition importanceR (c : Candidate) : R :=
  match importance c with Some r => r | None => 0%R end.

(** The waypoints for a list of kept candidates, the first of which gets
    the number [k]: TURN or WP followed by the running number, and the
    position, altitude and time of the fix of the candidate. *)
Fixpoint named (k : nat) (sel : list Candidate) : list Waypoint :=
  match sel with
  | [] => []
  | c :: sel' =>
      {| name := (match type c with
                  | turn => js "TURN"
                  | altitude_change => js "WP"
                  end) ++ natToString k;
         lat := latitude (fix_ c);
         lng := longitude (fix_ c);
         altitude := pressureAltitude (fix_ c);
         time := IGCParser.time (fix_ c) |} :: named (S k) sel'
  end.

(** A sample fix with a given time stamp and pressure altitude. *)
Definition sampleFixAlt (o : nat) (seconds alt : Z) : Fix :=
  {| oid := o; IGCParser.time := js "00:00:00"; timestamp := Int seconds;
     latitude := Num 46; longitude := Num 7; validity := true;
     pressureAltitude := Int alt; gnssAltitude := Int alt |}.

End MoreProps.

(* ================================================================= *)
(** ** Facts about the runtime fragment *)

Import JS IGCParser WaypointGenerator Props MoreProps.

Lemma String_eqb_eq (a b : jsstring) : String_eqb a b = true <-> a = b.
Proof.
  revert b; induction a as [|x a IH]; intros [|y b]; simpl; split;
    try congruence; try reflexivity.
  - intros H. apply andb_true_iff in H as [Hxy Hab].
    apply N.eqb_eq in Hxy. apply IH in Hab. now subst.
  - intros H. injection H as -> ->. apply andb_true_iff. split.
    + apply N.eqb_refl.
    + now apply IH.
Qed.

Lemma String_eqb_neq (a b : jsstring) : a <> b -> String_eqb a b = false.
Proof.
  intros H. destruct (String_eqb a b) eqn:E; [|reflexivity].
  apply String_eqb_eq in E. contradiction.
Qed.

Lemma floorR_spec (x : R) : (IZR (floorR x) <= x < IZR (floorR x) + 1)%R.
Proof.
  unfold floorR. rewrite minus_IZR.
  destruct (archimed x) as [H1 H2]. lra.
Qed.

Lemma floorR_mono (x y : R) : (x <= y)%R -> (floorR x <= floorR y)%Z.
Proof.
  intros H.
  destruct (floorR_spec x) as [Hx _], (floorR_spec y) as [_ Hy].
  assert (IZR (floorR x) < IZR (floorR y + 1))%R by (rewrite plus_IZR; lra).
  apply lt_IZR in H0. lia.
Qed.

Lemma ceilR_mono (x y : R) : (x <= y)%R -> (ceilR x <= ceilR y)%Z.
Proof.
  intros H. unfold ceilR.
  assert (floorR (- y) <= floorR (- x))%Z by (apply floorR_mono; lra).
  lia.
Qed.

Lemma ndiv_const (x : R) (k : Z) :
  k <> 0%Z -> ndiv (Some x) (Num k) = Some (x / IZR k)%R.
Proof.
  intros Hk. unfold ndiv, Num.
  destruct (Req_dec_T (IZR k) 0) as [E|E]; [|reflexivity].
  apply eq_IZR in E. contradiction.
Qed.

(** The base count is an integer as soon as the distance is a number, it
    does not exceed 12, and it grows with the distance. *)
Lemma baseCount_Some (d : R) (level : jsstring) :
  exists b, baseCount (Some d) level = Some b /\ (b <= 12)%Z.
Proof.
  unfold baseCount.
  destruct (String_eqb level (js "low"));
    [|destruct (String_eqb level (js "medium"));
      [|destruct (String_eqb level (js "high"))]];
    rewrite ndiv_const by discriminate; simpl; eexists; split;
    try reflexivity; lia.
Qed.

Lemma baseCount_mono (d1 d2 : R) (level : jsstring) (b1 b2 : Z) :
  (d1 <= d2)%R ->
  baseCount (Some d1) level = Some b1 ->
  baseCount (Some d2) level = Some b2 ->
  (b1 <= b2)%Z.
Proof.
  intros Hd. unfold baseCount.
  destruct (String_eqb level (js "low"));
    [|destruct (String_eqb level (js "medium"));
      [|destruct (String_eqb level (js "high"))]];
    rewrite !ndiv_const by discriminate; simpl; intros [= <-] [= <-].
  - assert (ceilR (d1 / 15) <= ceilR (d2 / 15))%Z by (apply ceilR_mono; lra). lia.
  - assert (ceilR (d1 / 25) <= ceilR (d2 / 25))%Z by (apply ceilR_mono; lra). lia.
  - assert (ceilR (d1 / 40) <= ceilR (d2 / 40))%Z by (apply ceilR_mono; lra). lia.
  - assert (ceilR (d1 / 25) <= ceilR (d2 / 25))%Z by (apply ceilR_mono; lra). lia.
Qed.

(** The budget written out on a real distance, from the base count. *)
Lemma budget_unfold (d : R) (level : jsstring) (b : Z) :
  baseCount (Some d) level = Some b ->
  getTargetWaypointCount (Some d) level =
  Some (Z.min 13
          (if Rle_dec d 20 then Z.max 2 b
           else if Rle_dec d 100 then Z.max 3 (Z.min 13 (b + 1))
           else if Rle_dec d 300 then Z.max 4 (Z.min 13 (b + 2))
           else Z.max 5 (Z.min 13 (b + 3)))).
Proof.
  intros Hb. unfold getTargetWaypointCount. rewrite Hb.
  unfold nle, Num. simpl.
  destruct (Rle_dec d 20); [reflexivity|].
  destruct (Rle_dec d 100); [reflexivity|].
  destruct (Rle_dec d 300); reflexivity.
Qed.

Lemma budget_NaN (level : jsstring) :
  getTargetWaypointCount None level = None.
Proof.
  unfold getTargetWaypointCount, baseCount.
  destruct (String_eqb level (js "low"));
    [|destruct (String_eqb level (js "medium"));
      [|destruct (String_eqb level (js "high"))]]; reflexivity.
Qed.

(** On any real distance the budget is an integer from 2 to 13. *)
Lemma budget_range (d : R) (level : jsstring) :
  exists n, getTargetWaypointCount (Some d) level = Some n /\ (2 <= n <= 13)%Z.
Proof.
  destruct (baseCount_Some d level) as (b & Hb & Hle).
  rewrite (budget_unfold _ _ Hb). eexists. split; [reflexivity|].
  destruct (Rle_dec d 20); [lia|].
  destruct (Rle_dec d 100); [lia|].
  destruct (Rle_dec d 300); lia.
Qed.

(** Whatever the distance, NaN included, the budget is NaN or an integer
    from 2 to 13. *)
Lemma budget_cases (distance : num) (level : jsstring) :
  getTargetWaypointCount distance level = None \/
  exists n, getTargetWaypointCount distance level = Some n /\ (2 <= n <= 13)%Z.
Proof.
  destruct distance as [d|].
  - right. apply budget_range.
  - left. apply budget_NaN.
Qed.

Lemma only_endpoints_budget (distance : num) (level : jsstring) :
  only_endpoints (getTargetWaypointCount distance level) = false.
Proof.
  destruct (budget_cases distance level) as [E|(n & E & Hn)]; rewrite E.
  - reflexivity.
  - unfold only_endpoints, ile, Int. apply Z.leb_gt. lia.
Qed.

(* ================================================================= *)
(** ** The waypoint budget *)

(** C3. For each of the levels low, medium and high, the budget
    [getTargetWaypointCount distance level] does not decrease when the
    distance grows, over the distances from 0 on, and it never exceeds 13. *)
Theorem budget_monotone (level : jsstring) (d1 d2 : R) :
  level = js "low" \/ level = js "medium" \/ level = js "high" ->
  (0 <= d1 <= d2)%R ->
  exists n1 n2,
    getTargetWaypointCount (Some d1) level = Some n1 /\
    getTargetWaypointCount (Some d2) level = Some n2 /\
    (n1 <= n2 <= 13)%Z.
Proof.
  intros _ [_ Hd].
  destruct (baseCount_Some d1 level) as (b1 & Hb1 & Hle1).
  destruct (baseCount_Some d2 level) as (b2 & Hb2 & Hle2).
  pose proof (baseCount_mono level Hd Hb1 Hb2) as Hb.
  rewrite (budget_unfold _ _ Hb1), (budget_unfold _ _ Hb2).
  do 2 eexists. split; [reflexivity|]. split; [reflexivity|].
  destruct (Rle_dec d1 20), (Rle_dec d1 100), (Rle_dec d1 300),
           (Rle_dec d2 20), (Rle_dec d2 100), (Rle_dec d2 300);
    try lia; exfalso; lra.
Qed.

Lemma budget_monotone_witness :
  exists n1 n2,
    getTargetWaypointCount (Some 50%R) (js "low") = Some n1 /\
    getTargetWaypointCount (Some 250%R) (js "low") = Some n2 /\
    (n1 <= n2 <= 13)%Z.
Proof.
  apply (@budget_monotone (js "low") 50%R 250%R).
  - left. reflexivity.
  - lra.
Defined.

(** C9. On every distance from 0 on and every level string, also one that
    is none of low, medium and high, [getTargetWaypointCount] returns an
    integer from 2 to 13; hence the guard [maxWaypoints <= 0] of the early
    return of [generateWaypoints] is false on every flight and level, and
    the branch that emits only the two endpoints is never taken. *)
Theorem budget_range_dead_branch :
  (forall (d : R) (level : jsstring),
      (0 <= d)%R ->
      exists n, getTargetWaypointCount (Some d) level = Some n /\
                (2 <= n <= 13)%Z) /\
  (forall (fixes : list Fix) (level : jsstring),
      only_endpoints
        (getTargetWaypointCount (calculateTotalDistance fixes) level) = false).
Proof.
  split.
  - intros d level _. apply budget_range.
  - intros fixes level. apply only_endpoints_budget.
Qed.

Lemma budget_range_dead_branch_witness :
  exists n, getTargetWaypointCount (Some 42%R) (js "expert") = Some n /\
            (2 <= n <= 13)%Z.
Proof.
  apply (proj1 budget_range_dead_branch 42%R (js "expert")). lra.
Defined.

(** With one level for both uses, [waypointsWith] is [generateWaypoints]. *)
Lemma generateWaypoints_waypointsWith (this : WaypointGenerator)
  (flightData : FlightData) (level : jsstring) :
  fst (generateWaypoints this flightData level) =
  waypointsWith level level (fixes flightData).
Proof.
  unfold generateWaypoints, waypointsWith.
  destruct (fixes flightData) as [|takeoff rest]; reflexivity.
Qed.

(** C10. For a level string that is none of low, medium and high,
    [generateWaypoints] behaves as a mixture of levels: the budget uses the
    base rate of medium, [min(8, ceil(distance / 25))], through the default
    of the switch, while the turn threshold is 60 degrees, the one of
    high; the waypoints are those of the budget of medium and the scan of
    high. *)
Theorem unknown_level_mixture (level : jsstring) :
  level <> js "low" -> level <> js "medium" -> level <> js "high" ->
  (forall distance,
      baseCount distance level = imin (Int 8) (Math_ceil (distance / Num 25)) /\
      getTargetWaypointCount distance level =
        getTargetWaypointCount distance (js "medium")) /\
  turnThreshold level = Num 60 /\
  turnThreshold (js "high") = Num 60 /\
  (forall this flightData,
      fst (generateWaypoints this flightData level) =
      waypointsWith (js "medium") (js "high") (fixes flightData)).
Proof.
  intros Hl Hm Hh.
  assert (Hb : forall distance, baseCount distance level =
               imin (Int 8) (Math_ceil (distance / Num 25))).
  { intros distance. unfold baseCount.
    now rewrite !String_eqb_neq by assumption. }
  assert (Hc : forall distance, getTargetWaypointCount distance level =
               getTargetWaypointCount distance (js "medium")).
  { intros distance. unfold getTargetWaypointCount. now rewrite Hb. }
  assert (Ht : turnThreshold level = Num 60).
  { unfold turnThreshold. now rewrite !String_eqb_neq by assumption. }
  assert (Hs : forall t, scan_step level t = scan_step (js "high") t).
  { intros [[p c] n]. unfold scan_step. now rewrite Ht. }
  split; [intros distance; split; [apply Hb | apply Hc]|].
  split; [exact Ht|]. split; [reflexivity|].
  intros this flightData. rewrite generateWaypoints_waypointsWith.
  unfold waypointsWith.
  destruct (fixes flightData) as [|takeoff rest]; [reflexivity|].
  rewrite Hc.
  match goal with
  | |- context [flat_map (scan_step level) ?l] =>
      rewrite (flat_map_ext (scan_step level) (scan_step (js "high")) Hs l)
  end.
  reflexivity.
Qed.

Lemma unknown_level_mixture_witness :
  turnThreshold (js "expert") = Num 60 /\
  fst (generateWaypoints constructor
         (sampleFlight [sampleFix 0 100; sampleFix 1 200; sampleFix 2 300])
         (js "expert")) =
  waypointsWith (js "medium") (js "high")
                [sampleFix 0 100; sampleFix 1 200; sampleFix 2 300].
Proof.
  destruct (@unknown_level_mixture (js "expert")) as (_ & Ht & _ & Hw);
    try discriminate.
  exact (conj Ht (Hw constructor
           (sampleFlight [sampleFix 0 100; sampleFix 1 200; sampleFix 2 300]))).
Defined.

(* ================================================================= *)
(** ** Geometry *)

Lemma PI_neq0' : PI <> 0%R.
Proof. pose proof PI_RGT_0. lra. Qed.

(** The remainder of a dividend that is not negative lies below the
    divisor. *)
Lemma remR_range (x y : R) :
  (0 <= x)%R -> (0 < y)%R -> (0 <= remR x y < y)%R.
Proof.
  intros Hx Hy. unfold remR, truncR.
  assert (Hq : (0 <= x / y)%R).
  { apply Rmult_le_pos; [assumption|]. left. now apply Rinv_0_lt_compat. }
  destruct (Rlt_dec (x / y) 0) as [Hneg|_]; [lra|].
  destruct (floorR_spec (x / y)) as [H1 H2].
  assert (Hxy : (x = x / y * y)%R) by (field; lra).
  set (q := IZR (floorR (x / y))) in *.
  set (t := (x / y)%R) in *.
  split; nra.
Qed.

(** A crude bound on [atan2], enough for the normalisation of bearings. *)
Lemma atan2R_bound (y x : R) : (- (2 * PI) < atan2R y x < 2 * PI)%R.
Proof.
  pose proof PI_RGT_0 as Hpi.
  pose proof (atan_bound (y / x)) as Hat.
  unfold atan2R.
  destruct (Rlt_dec 0 x); [lra|].
  destruct (Rlt_dec x 0).
  - destruct (Rle_dec 0 y); lra.
  - destruct (Rlt_dec 0 y); [lra|].
    destruct (Rlt_dec y 0); lra.
Qed.

(** On real coordinates a bearing is a real in [0, 360). *)
Lemma calculateBearing_range (lat1 lon1 lat2 lon2 : R) :
  exists b,
    calculateBearing (Some lat1) (Some lon1) (Some lat2) (Some lon2) = Some b /\
    (0 <= b < 360)%R.
Proof.
  unfold calculateBearing, Math_PI, Num. simpl.
  repeat match goal with
         | |- context [Req_dec_T ?a 0] =>
             destruct (Req_dec_T a 0) as [E|_];
             [exfalso; first [ now apply PI_neq0' | lra ]|]; simpl
         end.
  eexists. split; [reflexivity|].
  apply remR_range; [|lra].
  match goal with |- (0 <= ?a * 180 / PI + 360)%R =>
    pose proof (atan2R_bound
      (sin ((lon2 - lon1) * PI / 180) * cos (lat2 * PI / 180))
      (cos (lat1 * PI / 180) * sin (lat2 * PI / 180) -
       sin (lat1 * PI / 180) * cos (lat2 * PI / 180) *
       cos ((lon2 - lon1) * PI / 180))) as [Hlo _]
  end.
  pose proof PI_RGT_0 as Hpi.
  match goal with |- (0 <= ?a * 180 / PI + 360)%R =>
    assert (- 360 < a * 180 / PI)%R
  end.
  { apply Rmult_lt_reg_r with (r := PI); [assumption|].
    unfold Rdiv. rewrite Rmult_assoc, Rinv_l by lra. nra. }
  lra.
Qed.

(** C8. For any three points with real latitudes and longitudes,
    [calculateCourseChange] returns a real in the closed interval
    [0, 180]: it takes the absolute difference of the two bearings, each
    in [0, 360), and replaces it by 360 minus it when it exceeds 180. *)
Theorem calculateCourseChange_range (lat1 lon1 lat2 lon2 lat3 lon3 : R) :
  exists b1 b2 v,
    calculateBearing (Some lat1) (Some lon1) (Some lat2) (Some lon2) = Some b1 /\
    calculateBearing (Some lat2) (Some lon2) (Some lat3) (Some lon3) = Some b2 /\
    (0 <= b1 < 360)%R /\ (0 <= b2 < 360)%R /\
    v = (if Rlt_dec 180 (Rabs (b1 - b2)) then 360 - Rabs (b1 - b2)
         else Rabs (b1 - b2))%R /\
    calculateCourseChange (Some lat1) (Some lon1) (Some lat2) (Some lon2)
                          (Some lat3) (Some lon3) = Some v /\
    (0 <= v <= 180)%R.
Proof.
  destruct (calculateBearing_range lat1 lon1 lat2 lon2) as (b1 & E1 & H1).
  destruct (calculateBearing_range lat2 lon2 lat3 lon3) as (b2 & E2 & H2).
  exists b1, b2. eexists. repeat (split; [eassumption || reflexivity|]).
  unfold calculateCourseChange. rewrite E1, E2.
  unfold ngt, nlt, Num. simpl.
  pose proof (Rabs_pos (b1 - b2)) as Hpos.
  assert (Rabs (b1 - b2) < 360)%R by (apply Rabs_def1; lra).
  destruct (Rlt_dec 180 (Rabs (b1 - b2))); simpl; split;
    try reflexivity; lra.
Qed.

(* ================================================================= *)
(** ** Waypoint generation *)

Lemma sort_insert_length {A} (after : A -> A -> bool) (x : A) (l : list A) :
  length (sort_insert after x l) = S (length l).
Proof.
  induction l as [|y t IH]; simpl; [reflexivity|].
  destruct (after x y); simpl; congruence.
Qed.

Lemma Array_sort_length {A} (after : A -> A -> bool) (l : list A) :
  length (Array_sort after l) = length l.
Proof.
  unfold Array_sort. induction l as [|x t IH]; simpl; [reflexivity|].
  rewrite sort_insert_length. congruence.
Qed.

Lemma Array_slice0_NaN {A} (l : list A) : Array_slice0 l None = [].
Proof.
  unfold Array_slice0. simpl.
  replace (Z.min 0 (Z.of_nat (length l))) with 0%Z by lia. reflexivity.
Qed.

Lemma Array_slice0_length {A} (l : list A) (n : Z) :
  (0 <= n)%Z -> (Z.of_nat (length (Array_slice0 l (Some n))) <= n)%Z.
Proof.
  intros Hn. unfold Array_slice0.
  destruct (n <? 0)%Z eqn:E; [apply Z.ltb_lt in E; lia|].
  rewrite length_firstn. lia.
Qed.

(** The names and the pushes of the selected candidates extend the array
    by one waypoint each. *)
Lemma push_selected_fold (sel : list Candidate) (wps : list Waypoint) :
  exists extra,
    fold_left push_selected sel wps = wps ++ extra /\
    length extra = length sel.
Proof.
  revert wps. induction sel as [|c sel IH]; intros wps; simpl.
  - exists []. now rewrite app_nil_r.
  - destruct (IH (push_selected wps c)) as (extra & E & L).
    rewrite E. unfold push_selected. rewrite <- app_assoc.
    eexists. split; [reflexivity|]. simpl. congruence.
Qed.

(** The sampling loop ends by its condition: [length fixes] rounds are
    enough, more fuel changes nothing. *)
Lemma sampleLoop_fuel (fixes : list Fix) (d : Fix) (sampleRate : nat) :
  (1 <= sampleRate)%nat ->
  forall fuel i acc,
    (length fixes - i <= fuel)%nat ->
    sampleLoop (S fuel) fixes d sampleRate i acc =
    sampleLoop fuel fixes d sampleRate i acc.
Proof.
  intros Hr. induction fuel as [|fuel IH]; intros i acc Hf.
  - simpl. destruct (i <? length fixes)%nat eqn:E; [|reflexivity].
    apply Nat.ltb_lt in E. lia.
  - cbn [sampleLoop].
    destruct (i <? length fixes)%nat eqn:E; [|reflexivity].
    apply Nat.ltb_lt in E.
    change (sampleLoop (S fuel) fixes d sampleRate (i + sampleRate)
                       (acc ++ [nth i fixes d]) =
            sampleLoop fuel fixes d sampleRate (i + sampleRate)
                       (acc ++ [nth i fixes d])).
    apply IH. lia.
Qed.

Lemma sampleLoop_total (fixes : list Fix) (d : Fix) (extra : nat) :
  let sampleRate := Nat.max 1 (length fixes / 200) in
  sampleLoop (length fixes + extra) fixes d sampleRate 0 [] =
  sampleLoop (length fixes) fixes d sampleRate 0 [].
Proof.
  intros sampleRate. induction extra as [|extra IH].
  - now rewrite Nat.add_0_r.
  - rewrite <- IH, Nat.add_succ_r.
    apply sampleLoop_fuel; unfold sampleRate; lia.
Qed.

(** C2. For every fix sequence that is not empty and every level, the
    waypoints returned by [generateWaypoints] start with a waypoint named
    TAKEOFF whose lat, lng, altitude and time are those of the first fix,
    end with a waypoint named LANDING copied in the same way from the last
    fix, and are at most 15. *)
Theorem generateWaypoints_endpoints
  (this : WaypointGenerator) (flightData : FlightData) (level : jsstring)
  (first : Fix) (rest : list Fix) :
  fixes flightData = first :: rest ->
  let final := last (first :: rest) first in
  exists middle,
    fst (generateWaypoints this flightData level) =
      {| name := js "TAKEOFF"; lat := latitude first; lng := longitude first;
         altitude := pressureAltitude first; time := IGCParser.time first |}
      :: middle ++
      [ {| name := js "LANDING"; lat := latitude final; lng := longitude final;
           altitude := pressureAltitude final; time := IGCParser.time final |} ] /\
    (length (fst (generateWaypoints this flightData level)) <= 15)%nat.
Proof.
  intros Hf final. unfold generateWaypoints. rewrite Hf. cbn [fst].
  rewrite only_endpoints_budget.
  match goal with
  | |- context [fold_left push_selected ?sel ?w] =>
      destruct (push_selected_fold sel w) as (extra & E & L);
      rewrite E; exists extra; split; [reflexivity|];
      assert (Hsel : (length sel <= 13)%nat)
  end.
  { rewrite Array_sort_length.
    destruct (budget_cases (calculateTotalDistance (first :: rest)) level)
      as [En|(n & En & Hn)]; rewrite En.
    - rewrite Array_slice0_NaN. simpl. lia.
    - match goal with |- (length (Array_slice0 ?l _) <= _)%nat =>
        pose proof (@Array_slice0_length _ l n) end. lia. }
  rewrite !length_app. simpl. lia.
Qed.

(** C6. For every flight whose fix sequence has exactly 2 fixes and for
    every level, [generateWaypoints] returns exactly two waypoints, the
    first named TAKEOFF and the second named LANDING. *)
Theorem generateWaypoints_two_fixes
  (this : WaypointGenerator) (flightData : FlightData) (level : jsstring)
  (a b : Fix) :
  fixes flightData = [a; b] ->
  fst (generateWaypoints this flightData level) =
    [ {| name := js "TAKEOFF"; lat := latitude a; lng := longitude a;
         altitude := pressureAltitude a; time := IGCParser.time a |};
      {| name := js "LANDING"; lat := latitude b; lng := longitude b;
         altitude := pressureAltitude b; time := IGCParser.time b |} ].
Proof.
  intros Hf. unfold generateWaypoints. rewrite Hf. cbn [fst].
  rewrite only_endpoints_budget.
  cbn [length Nat.div Nat.max sampleLoop Nat.ltb Nat.leb app nth Nat.add last].
  simpl.
  rewrite Nat.eqb_refl. simpl.
  unfold Array_slice0. simpl. rewrite firstn_nil. reflexivity.
Qed.

Lemma generateWaypoints_endpoints_witness :
  let flightData := sampleFlight [sampleFix 0 100; sampleFix 1 200; sampleFix 2 300] in
  let first := sampleFix 0 100 in
  let final := sampleFix 2 300 in
  exists middle,
    fst (generateWaypoints constructor flightData (js "medium")) =
      {| name := js "TAKEOFF"; lat := latitude first; lng := longitude first;
         altitude := pressureAltitude first; time := IGCParser.time first |}
      :: middle ++
      [ {| name := js "LANDING"; lat := latitude final; lng := longitude final;
           altitude := pressureAltitude final; time := IGCParser.time final |} ] /\
    (length (fst (generateWaypoints constructor flightData (js "medium"))) <= 15)%nat.
Proof.
  exact (@generateWaypoints_endpoints constructor
           (sampleFlight [sampleFix 0 100; sampleFix 1 200; sampleFix 2 300])
           (js "medium") (sampleFix 0 100) [sampleFix 1 200; sampleFix 2 300]
           eq_refl).
Defined.

Lemma generateWaypoints_two_fixes_witness :
  fst (generateWaypoints constructor (sampleFlight [sampleFix 0 100; sampleFix 1 200])
                         (js "high")) =
    [ sampleWaypoint (js "TAKEOFF"); sampleWaypoint (js "LANDING") ].
Proof.
  exact (@generateWaypoints_two_fixes constructor
           (sampleFlight [sampleFix 0 100; sampleFix 1 200]) (js "high")
           (sampleFix 0 100) (sampleFix 1 200) eq_refl).
Defined.

(* ================================================================= *)
(** ** Flight statistics *)

(** C4. For every fix sequence that is not empty, the duration is the time
    stamp of the last fix minus that of the first, with 86400 added when
    the difference is negative; in particular fixes with the time stamps
    86300, 86350 and 40 have the duration 140. *)
Theorem duration_midnight_wrap :
  (forall (first : Fix) (rest : list Fix),
      let final := last (first :: rest) first in
      duration (calculateFlightStats (first :: rest)) =
        match timestamp final, timestamp first with
        | Some e, Some s =>
            Some (if (e - s <? 0)%Z then e - s + 86400 else e - s)%Z
        | _, _ => None
        end) /\
  (forall f1 f2 f3 : Fix,
      timestamp f1 = Some 86300%Z ->
      timestamp f2 = Some 86350%Z ->
      timestamp f3 = Some 40%Z ->
      duration (calculateFlightStats [f1; f2; f3]) = Some 140%Z).
Proof.
  assert (H : forall (first : Fix) (rest : list Fix),
      duration (calculateFlightStats (first :: rest)) =
        match timestamp (last (first :: rest) first), timestamp first with
        | Some e, Some s =>
            Some (if (e - s <? 0)%Z then e - s + 86400 else e - s)%Z
        | _, _ => None
        end).
  { intros first rest. unfold calculateFlightStats.
    destruct (fold_left climbSink_step (pairs (first :: rest)) (Num 0, Num 0))
      as [maxClimb maxSink].
    cbn [duration]. unfold flightDuration.
    destruct (timestamp (last (first :: rest) first)) as [e|],
             (timestamp first) as [s|]; try reflexivity.
    cbn. destruct (e - s <? 0)%Z; reflexivity. }
  split; [exact H|].
  intros f1 f2 f3 H1 H2 H3. rewrite H. cbn [last]. rewrite H1, H3. reflexivity.
Qed.

Lemma duration_midnight_wrap_witness :
  duration (calculateFlightStats
              [sampleFix 0 86300; sampleFix 1 86350; sampleFix 2 40]) =
  Some 140%Z.
Proof.
  exact (proj2 duration_midnight_wrap
           (sampleFix 0 86300) (sampleFix 1 86350) (sampleFix 2 40)
           eq_refl eq_refl eq_refl).
Defined.

(* ================================================================= *)
(** ** Export *)

Lemma fold_left_append {A} (row : A -> jsstring) (l : list A) (acc : jsstring) :
  fold_left (fun csv x => csv ++ row x) l acc = acc ++ flat_map row l.
Proof.
  revert acc. induction l as [|x l IH]; intros acc; simpl.
  - now rewrite app_nil_r.
  - rewrite IH. now rewrite <- app_assoc.
Qed.

Lemma fold_left_pointwise {A B} (f g : A -> B -> A) (l : list B) (a : A) :
  (forall x y, f x y = g x y) -> fold_left f l a = fold_left g l a.
Proof.
  intros H. revert a. induction l as [|y l IH]; intros a; simpl;
    [reflexivity|]. now rewrite H, IH.
Qed.

Lemma generateCompactCSV_rows (toFixed : nat -> num -> jsstring)
  (this : WaypointGenerator) :
  waypoints this <> [] ->
  generateCompactCSV toFixed this =
  Some (flat_map (compactRow toFixed) (waypoints this)).
Proof.
  intros Hne. unfold generateCompactCSV.
  destruct (waypoints this) as [|w ws] eqn:E; [contradiction|].
  f_equal.
  rewrite <- (app_nil_l (flat_map (compactRow toFixed) (w :: ws))).
  rewrite <- (fold_left_append (compactRow toFixed) (w :: ws) []).
  apply fold_left_pointwise. intros csv x. reflexivity.
Qed.

Lemma generateCSV_nonempty (toFixed : nat -> num -> jsstring)
  (this : WaypointGenerator) :
  waypoints this <> [] ->
  exists c t, generateCSV toFixed this = Some (c :: t).
Proof.
  intros Hne. unfold generateCSV.
  destruct (waypoints this) as [|w ws] eqn:E; [contradiction|].
  rewrite (fold_left_append
             (fun x => name x ++ js "," ++ toFixed 6%nat (lat x) ++ js ","
                       ++ toFixed 6%nat (lng x) ++ js ","
                       ++ intToString (altitude x) ++ nl)).
  simpl. eauto.
Qed.

Lemma generateGPX_nonempty (toFixed : nat -> num -> jsstring) (now : jsstring)
  (this : WaypointGenerator) :
  waypoints this <> [] ->
  exists c t, generateGPX toFixed now this = Some (c :: t).
Proof.
  intros Hne. unfold generateGPX.
  destruct (waypoints this) as [|w ws] eqn:E; [contradiction|].
  cbv zeta.
  match goal with |- exists c t, Some (?x ++ js "</gpx>") = _ =>
    destruct x as [|c t]; [cbv | simpl]; eauto end.
Qed.

(** The outcome of [generateQRCode] on an existing element, from the
    primary and the compact payload. *)
Lemma generateQRCode_unfold (toFixed : nat -> num -> jsstring) (now : jsstring)
  (this : WaypointGenerator) (format : jsstring) (c : char) (t compact : jsstring) :
  primaryPayload toFixed now this format = Some (c :: t) ->
  generateCompactCSV toFixed this = Some compact ->
  generateQRCode toFixed now this true format =
    (if (length (c :: t) <=? 1500)%nat then QRCode (c :: t)
     else if (length compact <=? 1500)%nat then QRCode compact
     else TooManyWaypoints).
Proof.
  unfold primaryPayload, generateQRCode. intros Hp Hc. cbn [negb].
  rewrite Hp, Hc, !Nat.ltb_antisym.
  destruct (length (c :: t) <=? 1500)%nat; [reflexivity|]. cbn [negb].
  destruct (length compact <=? 1500)%nat; reflexivity.
Qed.

(** C7. For every waypoint sequence and either primary format, the size
    policy of the export holds (on an element that exists). Without
    waypoints there is no payload and nothing is encoded. Otherwise a primary payload (GPX or CSV, as chosen)
    of at most 1500 characters is the one encoded; one that exceeds 1500
    characters is replaced by the compact CSV (no header row, coordinates
    with 5 decimals); when the compact form still exceeds 1500 characters
    the export fails with the too-many-waypoints condition and nothing is
    encoded; a payload that is encoded has at most 1500 characters. *)
Theorem export_size_policy (toFixed : nat -> num -> jsstring) (now : jsstring)
  (this : WaypointGenerator) (format : jsstring) :
  (waypoints this = [] ->
   generateQRCode toFixed now this true format = NoWaypointData) /\
  (waypoints this <> [] ->
   exists primary compact,
     primaryPayload toFixed now this format = Some primary /\
     generateCompactCSV toFixed this = Some compact /\
     compact = flat_map (compactRow toFixed) (waypoints this) /\
     generateQRCode toFixed now this true format =
       (if (length primary <=? 1500)%nat then QRCode primary
        else if (length compact <=? 1500)%nat then QRCode compact
        else TooManyWaypoints)) /\
  (forall data,
      generateQRCode toFixed now this true format = QRCode data ->
      (length data <= 1500)%nat).
Proof.
  assert (Hne : waypoints this <> [] ->
    exists c t,
      primaryPayload toFixed now this format = Some (c :: t) /\
      generateQRCode toFixed now this true format =
       (if (length (c :: t) <=? 1500)%nat then QRCode (c :: t)
        else if (length (flat_map (compactRow toFixed) (waypoints this))
                 <=? 1500)%nat
             then QRCode (flat_map (compactRow toFixed) (waypoints this))
             else TooManyWaypoints)).
  { intros Hne.
    assert (Hp : exists c t,
               primaryPayload toFixed now this format = Some (c :: t)).
    { unfold primaryPayload. destruct (String_eqb format (js "gpx"));
        [now apply generateGPX_nonempty | now apply generateCSV_nonempty]. }
    destruct Hp as (c & t & Hp). exists c, t. split; [exact Hp|].
    apply (generateQRCode_unfold _ _ _ _ Hp).
    now apply generateCompactCSV_rows. }
  assert (He : waypoints this = [] ->
               generateQRCode toFixed now this true format = NoWaypointData).
  { intros He. unfold generateQRCode, generateGPX, generateCSV.
    rewrite He. cbn [negb]. now destruct (String_eqb format (js "gpx")). }
  split; [exact He|]. split.
  - intros H. destruct (Hne H) as (c & t & Hp & Hq).
    exists (c :: t). eexists. split; [exact Hp|].
    split; [now apply generateCompactCSV_rows|]. split; [reflexivity|exact Hq].
  - intros data.
    destruct (waypoints this) as [|w ws] eqn:E.
    + rewrite He by reflexivity. discriminate.
    + destruct Hne as (c & t & _ & Hq); [discriminate|]. rewrite Hq.
      destruct (length (c :: t) <=? 1500)%nat eqn:E1.
      * intros [= <-]. now apply Nat.leb_le.
      * destruct (length (flat_map (compactRow toFixed) (w :: ws))
                  <=? 1500)%nat eqn:E2.
        -- intros [= <-]. now apply Nat.leb_le.
        -- discriminate.
Qed.

Lemma export_size_policy_witness :
  exists primary compact,
    primaryPayload toFixed_exact sampleNow sampleGenerator (js "csv") =
      Some primary /\
    generateCompactCSV toFixed_exact sampleGenerator = Some compact /\
    compact = flat_map (compactRow toFixed_exact) (waypoints sampleGenerator) /\
    generateQRCode toFixed_exact sampleNow sampleGenerator true (js "csv") =
      (if (length primary <=? 1500)%nat then QRCode primary
       else if (length compact <=? 1500)%nat then QRCode compact
       else TooManyWaypoints).
Proof.
  apply (proj1 (proj2 (@export_size_policy toFixed_exact sampleNow
                         sampleGenerator (js "csv")))).
  discriminate.
Defined.




(* ================================================================= *)
(** ** Header decoding *)

(** The body of the loop of [parseHeader] makes the assignment that
    [assigns] describes, or none. *)
Lemma parseHeader_line_assigns (h : FlightHeader) (line : jsstring) :
  parseHeader_line h line =
  match assigns line with
  | Some (f, v) => assign f v h
  | None => h
  end.
Proof.
  unfold parseHeader_line, assigns.
  destruct (startsWith line (js "HFDTE")).
  { destruct (regex_HFDTE line) as [[[day month] yy]|]; reflexivity. }
  repeat match goal with
         | |- context [if ?c then _ else _] =>
             destruct c;
             [match goal with
              | |- context [header_value ?p line] =>
                  destruct (header_value p line); reflexivity
              end|]
         end.
  reflexivity.
Qed.

Lemma get_assign_same (f : Field) (v : jsstring) (h : FlightHeader) :
  get f (assign f v h) = Some v.
Proof. destruct f; reflexivity. Qed.

Lemma get_assign_other (f g : Field) (v : jsstring) (h : FlightHeader) :
  Field_eqb f g = false -> get f (assign g v h) = get f h.
Proof. destruct f, g; simpl; intros; try discriminate; reflexivity. Qed.

(** Lines that carry no value for a field leave it as it is. *)
Lemma fold_parseHeader_line_keeps (f : Field) (ls : list jsstring)
  (h : FlightHeader) :
  forallb (fun l => negb (assigns_field f l)) ls = true ->
  get f (fold_left parseHeader_line ls h) = get f h.
Proof.
  revert h. induction ls as [|l ls IH]; intros h; simpl; [reflexivity|].
  intros H. apply andb_true_iff in H as [Hl Hls].
  rewrite (IH _ Hls), parseHeader_line_assigns.
  unfold assigns_field in Hl.
  destruct (assigns l) as [[g v]|]; [|reflexivity].
  apply get_assign_other. now apply negb_true_iff.
Qed.

(** The line that carries a value for a field and is followed by no other
    such line decides the field. *)
Lemma last_assignment_decides (f : Field) (v : jsstring)
  (pre post : list jsstring) (l : jsstring) :
  assigns l = Some (f, v) ->
  forallb (fun l' => negb (assigns_field f l')) post = true ->
  get f (parseHeader (pre ++ l :: post)) = Some v.
Proof.
  intros Hl Hpost. unfold parseHeader.
  rewrite fold_left_app. cbn [fold_left].
  rewrite (fold_parseHeader_line_keeps _ _ _ Hpost).
  rewrite parseHeader_line_assigns, Hl. apply get_assign_same.
Qed.

(** C1, as amended. Header decoding fills a field from every line that
    matches the prefix of the field with a value that is not empty, so
    that a later line overwrites an earlier one: if two lines both match
    the prefix of a field with non-empty values, and no line behind the
    later one does, the field of the header is the value of the later
    line. *)
Theorem last_match_wins
  (pre mid post : list jsstring) (l1 l2 : jsstring) (f : Field)
  (v1 v2 : jsstring) :
  assigns l1 = Some (f, v1) ->
  assigns l2 = Some (f, v2) ->
  forallb (fun l => negb (assigns_field f l)) post = true ->
  get f (parseHeader (pre ++ l1 :: mid ++ l2 :: post)) = Some v2.
Proof.
  intros _ H2 Hpost.
  replace (pre ++ l1 :: mid ++ l2 :: post)
    with ((pre ++ l1 :: mid) ++ l2 :: post)
    by (now rewrite <- app_assoc).
  now apply last_assignment_decides.
Qed.

Lemma last_match_wins_witness :
  get FPilot
      (parseHeader ([js "HFDTE230599"] ++ js "HFPLTPILOT:Alice"
                    :: [js "HFGTYGLIDERTYPE:Discus"] ++ js "HFPLTPILOT:Bob"
                    :: [js "B1101355206343N00006198WA0058700614"])) =
  Some (js "Bob").
Proof.
  exact (@last_match_wins [js "HFDTE230599"] [js "HFGTYGLIDERTYPE:Discus"]
           [js "B1101355206343N00006198WA0058700614"]
           (js "HFPLTPILOT:Alice") (js "HFPLTPILOT:Bob") FPilot
           (js "Alice") (js "Bob") eq_refl eq_refl eq_refl).
Defined.

(** C1, as stated, fails: of two pilot lines the later one is kept. *)
Lemma first_match_wins_counterexample :
  assigns (js "HFPLTPILOT:Alice") = Some (FPilot, js "Alice") /\
  assigns (js "HFPLTPILOT:Bob") = Some (FPilot, js "Bob") /\
  pilot (parseHeader [js "HFPLTPILOT:Alice"; js "HFPLTPILOT:Bob"]) = js "Bob" /\
  ~ first_match_wins.
Proof.
  repeat split; try reflexivity.
  intros H.
  specialize (H [] [] [] (js "HFPLTPILOT:Alice") (js "HFPLTPILOT:Bob")
                FPilot (js "Alice") (js "Bob") eq_refl eq_refl eq_refl).
  vm_compute in H. discriminate.
Qed.

(* ================================================================= *)
(** ** Records that are too short *)

Lemma parseBRecord_short (o : nat) (line : jsstring) :
  (length line < 35)%nat -> parseBRecord o line = None.
Proof.
  intros H. unfold parseBRecord.
  apply Nat.ltb_lt in H. now rewrite H.
Qed.

Lemma parse_line_short (fixes : list Fix) (line : jsstring) :
  (length line < 35)%nat -> parse_line fixes line = fixes.
Proof.
  intros H. unfold parse_line.
  rewrite parseBRecord_short by assumption.
  now destruct (startsWith line (js "B")).
Qed.

Lemma fixes_without_short_line (pre post : list jsstring) (line : jsstring) :
  (length line < 35)%nat ->
  fold_left parse_line (pre ++ line :: post) [] =
  fold_left parse_line (pre ++ post) [].
Proof.
  intros H. rewrite !fold_left_app. cbn [fold_left].
  now rewrite parse_line_short.
Qed.

Lemma header_without_inert_line (pre post : list jsstring) (line : jsstring) :
  assigns line = None ->
  parseHeader (pre ++ line :: post) = parseHeader (pre ++ post).
Proof.
  intros H. unfold parseHeader. rewrite !fold_left_app. cbn [fold_left].
  now rewrite parseHeader_line_assigns, H.
Qed.

(** C5, as amended. For every line shorter than 35 characters
    [parseBRecord] returns null, and [parse] skips the record and goes on:
    the fixes and the statistics of the result for a log that contains such
    a line are those for the same log without the line; the whole result
    is the same when, besides, the line matches no header prefix with a
    value. *)
Theorem short_line_skipped
  (text text' : jsstring) (pre post : list jsstring) (line : jsstring) :
  (length line < 35)%nat ->
  split_nl text = pre ++ line :: post ->
  split_nl text' = pre ++ post ->
  (forall o, parseBRecord o line = None) /\
  fixes (parse text) = fixes (parse text') /\
  stats (parse text) = stats (parse text') /\
  (assigns line = None -> parse text = parse text').
Proof.
  intros Hlen Ht Ht'.
  split; [intros o; now apply parseBRecord_short|].
  unfold parse, parse_lines. rewrite Ht, Ht'. cbn [fixes stats].
  rewrite (@fixes_without_short_line pre post line Hlen).
  repeat split.
  intros Ha. now rewrite (@header_without_inert_line pre post line Ha).
Qed.

Lemma short_line_skipped_witness :
  let good := js "B1101355206343N00006198WA0058700614" in
  let text := js "HFPLTPILOT:Jane Doe" ++ nl ++ js "B110135" ++ nl ++ good in
  let text' := js "HFPLTPILOT:Jane Doe" ++ nl ++ good in
  (forall o, parseBRecord o (js "B110135") = None) /\
  fixes (parse text) = fixes (parse text') /\
  stats (parse text) = stats (parse text') /\
  (assigns (js "B110135") = None -> parse text = parse text').
Proof.
  apply (@short_line_skipped
           (js "HFPLTPILOT:Jane Doe" ++ nl ++ js "B110135" ++ nl
            ++ js "B1101355206343N00006198WA0058700614")
           (js "HFPLTPILOT:Jane Doe" ++ nl
            ++ js "B1101355206343N00006198WA0058700614")
           [js "HFPLTPILOT:Jane Doe"]
           [js "B1101355206343N00006198WA0058700614"]
           (js "B110135")).
  - vm_compute. lia.
  - reflexivity.
  - reflexivity.
Defined.

(** C5, as stated, fails: a B record that is too short and carries a pilot
    value is skipped as a fix, yet it still sets the pilot of the header. *)
Lemma short_line_is_inert_counterexample :
  (length (js "BHFPLT:Joe") < 35)%nat /\
  pilot (header (parse (js "BHFPLT:Joe" ++ nl ++ js "HFDTE230599"))) = js "Joe" /\
  pilot (header (parse (js "HFDTE230599"))) = js "Unknown" /\
  ~ short_line_is_inert.
Proof.
  split; [vm_compute; lia|].
  split; [reflexivity|]. split; [reflexivity|].
  intros H.
  specialize (H (js "BHFPLT:Joe" ++ nl ++ js "HFDTE230599") (js "HFDTE230599")
                [] [js "HFDTE230599"] (js "BHFPLT:Joe")).
  assert (E : pilot (header (parse (js "BHFPLT:Joe" ++ nl ++ js "HFDTE230599"))) =
              pilot (header (parse (js "HFDTE230599")))).
  { rewrite H; [reflexivity | vm_compute; lia | reflexivity | reflexivity]. }
  vm_compute in E. discriminate.
Qed.

(* ================================================================= *)
(** ** Further properties of the parser *)

Lemma parseBRecord_Some (o : nat) (line : jsstring) :
  (35 <= length line)%nat ->
  exists f, parseBRecord o line = Some f /\ oid f = o.
Proof.
  intros H. unfold parseBRecord.
  destruct (length line <? 35)%nat eqn:E.
  - apply Nat.ltb_lt in E. lia.
  - eexists. split; reflexivity.
Qed.

Lemma parse_line_cases (acc : list Fix) (line : jsstring) :
  (isFixLine line = true /\
   exists f, parse_line acc line = acc ++ [f] /\ oid f = length acc) \/
  (isFixLine line = false /\ parse_line acc line = acc).
Proof.
  unfold isFixLine, parse_line.
  destruct (startsWith line (js "B")); [|right; split; reflexivity].
  destruct (35 <=? length line)%nat eqn:E.
  - left. split; [reflexivity|]. apply Nat.leb_le in E.
    destruct (parseBRecord_Some (length acc) line E) as (f & Hf & Ho).
    rewrite Hf. eauto.
  - right. split; [reflexivity|].
    rewrite parseBRecord_short; [reflexivity|].
    apply Nat.leb_gt in E. exact E.
Qed.

Lemma fold_parse_line_oids (ls : list jsstring) (acc : list Fix) :
  map oid (fold_left parse_line ls acc) =
  map oid acc ++ seq (length acc) (length (filter isFixLine ls)).
Proof.
  revert acc. induction ls as [|l ls IH]; intros acc; simpl.
  - now rewrite app_nil_r.
  - rewrite IH.
    destruct (parse_line_cases acc l) as [(Hl & f & Hf & Ho)|(Hl & Hf)];
      rewrite Hl, Hf.
    + rewrite map_app, length_app, <- app_assoc. simpl.
      rewrite Ho, Nat.add_1_r. reflexivity.
    + reflexivity.
Qed.

(** X1. The fixes of a log are as many as its B records of at least 35
    characters, and the objects are allocated in file order: the fix at
    index [i] has the identity [i], so that the fixes are pairwise distinct
    objects. *)
Theorem parse_fix_identities (text : jsstring) :
  map oid (fixes (parse text)) =
    seq 0 (length (filter isFixLine (split_nl text))) /\
  length (fixes (parse text)) = length (filter isFixLine (split_nl text)) /\
  NoDup (map oid (fixes (parse text))).
Proof.
  assert (H : map oid (fixes (parse text)) =
              seq 0 (length (filter isFixLine (split_nl text)))).
  { unfold parse, parse_lines. cbn [fixes]. now rewrite fold_parse_line_oids. }
  split; [exact H|]. split.
  - rewrite <- (length_map oid), H. apply length_seq.
  - rewrite H. apply seq_NoDup.
Qed.

Lemma fold_parse_line_filter (ls : list jsstring) (acc : list Fix) :
  fold_left parse_line ls acc = fold_left parse_line (filter isFixLine ls) acc.
Proof.
  revert acc. induction ls as [|l ls IH]; intros acc; simpl; [reflexivity|].
  destruct (parse_line_cases acc l) as [(Hl & _)|(Hl & Hf)]; rewrite Hl.
  - simpl. apply IH.
  - rewrite Hf. apply IH.
Qed.

(** X2. The fixes and the statistics of a log depend on its B records of at
    least 35 characters only: every other line (a header line, a task
    record, an empty line, a B record that is too short) can be dropped
    without changing them, wherever it stands. *)
Theorem parse_ignores_other_lines (lines : list jsstring) :
  fixes (parse_lines lines) = fixes (parse_lines (filter isFixLine lines)) /\
  stats (parse_lines lines) = stats (parse_lines (filter isFixLine lines)).
Proof.
  unfold parse_lines. cbn [fixes stats].
  rewrite <- (fold_parse_line_filter lines []). split; reflexivity.
Qed.

(** X3. A field for which no line of the log carries a value keeps its
    default: the pilot, the glider type and the registration are Unknown,
    the date, the versions and the competition id are null. *)
Theorem header_defaults (f : Field) (lines : list jsstring) :
  forallb (fun l => negb (assigns_field f l)) lines = true ->
  get f (parseHeader lines) =
    match f with
    | FPilot | FGliderType | FGliderReg => Some (js "Unknown")
    | _ => None
    end.
Proof.
  intros H. unfold parseHeader.
  rewrite (fold_parseHeader_line_keeps _ _ _ H). now destruct f.
Qed.

Lemma header_defaults_witness :
  get FPilot
      (parseHeader [js "HFDTE230599"; js "B1101355206343N00006198WA0058700614"]) =
  Some (js "Unknown").
Proof.
  exact (@header_defaults FPilot
           [js "HFDTE230599"; js "B1101355206343N00006198WA0058700614"]
           eq_refl).
Defined.

Lemma parseHeader_line_fixed (h : FlightHeader) (line : jsstring) :
  gpsDatum (parseHeader_line h line) = gpsDatum h /\
  loggerType (parseHeader_line h line) = loggerType h.
Proof.
  rewrite parseHeader_line_assigns.
  destruct (assigns line) as [[[] v]|]; split; reflexivity.
Qed.

(** X4. No log changes the GPS datum or the logger type of the header:
    they are WGS84 and Unknown whatever the lines say. *)
Theorem header_fixed_fields (lines : list jsstring) :
  gpsDatum (parseHeader lines) = js "WGS84" /\
  loggerType (parseHeader lines) = js "Unknown".
Proof.
  unfold parseHeader.
  assert (H : forall h,
    gpsDatum (fold_left parseHeader_line lines h) = gpsDatum h /\
    loggerType (fold_left parseHeader_line lines h) = loggerType h).
  { induction lines as [|l ls IH]; intros h; simpl; [split; reflexivity|].
    destruct (IH (parseHeader_line h l)) as [H1 H2].
    destruct (parseHeader_line_fixed h l) as [H3 H4].
    split; congruence. }
  apply (H initialHeader).
Qed.

Lemma isDigit_cases (c : char) :
  isDigit c = true ->
  (c = 48 \/ c = 49 \/ c = 50 \/ c = 51 \/ c = 52 \/
   c = 53 \/ c = 54 \/ c = 55 \/ c = 56 \/ c = 57)%N.
Proof.
  unfold isDigit. intros H. apply andb_true_iff in H as [H1 H2].
  apply N.leb_le in H1, H2. lia.
Qed.

Ltac digit_cases H :=
  apply isDigit_cases in H;
  destruct H as [H|[H|[H|[H|[H|[H|[H|[H|[H|H]]]]]]]]]; subst.

(** Two digits are read and printed back as they are. *)
Lemma two_digits_print (c1 c2 : char) :
  isDigit c1 = true -> isDigit c2 = true ->
  parseInt [c1; c2] = Some (twoDigits c1 c2) /\
  padStart0 (intToString (Some (twoDigits c1 c2))) 2 = [c1; c2] /\
  (0 <= digitValue c1 <= 9)%Z /\ (0 <= digitValue c2 <= 9)%Z.
Proof.
  intros H1 H2. digit_cases H1; digit_cases H2; vm_compute; intuition congruence.
Qed.

(** X5. A line that starts with HFDTE and six digits DDMMYY gives the date
    20YY-MM-DD: the century is always 20. With no date line behind it, this
    is the date of the header. *)
Theorem header_date_decoded
  (pre post : list jsstring) (d1 d2 m1 m2 y1 y2 : char) (rest : jsstring) :
  forallb isDigit [d1; d2; m1; m2; y1; y2] = true ->
  forallb (fun l => negb (assigns_field FDate l)) post = true ->
  date (parseHeader
          (pre ++ (js "HFDTE" ++ [d1; d2; m1; m2; y1; y2] ++ rest) :: post)) =
  Some (js "20" ++ [y1; y2] ++ js "-" ++ [m1; m2] ++ js "-" ++ [d1; d2]).
Proof.
  intros Hd Hpost.
  apply (@last_assignment_decides FDate _ pre post _); [|exact Hpost].
  cbn [forallb] in Hd.
  repeat (apply andb_true_iff in Hd; destruct Hd as [? Hd]).
  unfold assigns, regex_HFDTE.
  change (js "HFDTE" ++ [d1; d2; m1; m2; y1; y2] ++ rest)
    with (72 :: 70 :: 68 :: 84 :: 69 :: d1 :: d2 :: m1 :: m2 :: y1 :: y2 :: rest)%N.
  cbn.
  repeat match goal with
         | Hx : isDigit ?c = true |- context [isDigit ?c] => rewrite Hx
         end.
  reflexivity.
Qed.

Lemma header_date_decoded_witness :
  date (parseHeader
          ([js "HFPLTPILOT:Jane Doe"]
           ++ (js "HFDTE" ++ [50; 51; 48; 53; 57; 57]%N ++ js " extra")
           :: [js "B1101355206343N00006198WA0058700614"])) =
  Some (js "2099-05-23").
Proof.
  exact (@header_date_decoded [js "HFPLTPILOT:Jane Doe"]
           [js "B1101355206343N00006198WA0058700614"]
           50%N 51%N 48%N 53%N 57%N 57%N (js " extra") eq_refl eq_refl).
Defined.

(** The time fields of a fix, as [parseBRecord] computes them. *)
Lemma parseBRecord_time_raw
  (o : nat) (b h1 h2 m1 m2 s1 s2 : char) (rest : jsstring) (f : Fix) :
  parseBRecord o (b :: h1 :: h2 :: m1 :: m2 :: s1 :: s2 :: rest) = Some f ->
  (28 <= length rest)%nat /\
  IGCParser.time f =
    padStart0 (intToString (parseInt [h1; h2])) 2 ++ js ":"
    ++ padStart0 (intToString (parseInt [m1; m2])) 2 ++ js ":"
    ++ padStart0 (intToString (parseInt [s1; s2])) 2 /\
  timestamp f =
    (parseInt [h1; h2] * Int 3600 + parseInt [m1; m2] * Int 60
     + parseInt [s1; s2])%jint.
Proof.
  unfold parseBRecord.
  destruct (length (b :: h1 :: h2 :: m1 :: m2 :: s1 :: s2 :: rest) <? 35)%nat
    eqn:E; [discriminate|].
  apply Nat.ltb_ge in E. cbn [length] in E.
  intros [= <-]. split; [lia|]. split; reflexivity.
Qed.

(** X6. A B record of at least 35 characters whose time field HHMMSS is six
    digits gives a fix whose [time] is HH:MM:SS with the same digits and
    whose [timestamp] is [HH * 3600 + MM * 60 + SS], a number of seconds
    from 0 on. *)
Theorem parseBRecord_time_decoded
  (o : nat) (b h1 h2 m1 m2 s1 s2 : char) (rest : jsstring) :
  (28 <= length rest)%nat ->
  forallb isDigit [h1; h2; m1; m2; s1; s2] = true ->
  exists f,
    parseBRecord o (b :: h1 :: h2 :: m1 :: m2 :: s1 :: s2 :: rest) = Some f /\
    IGCParser.time f = [h1; h2] ++ js ":" ++ [m1; m2] ++ js ":" ++ [s1; s2] /\
    timestamp f =
      Some (twoDigits h1 h2 * 3600 + twoDigits m1 m2 * 60 + twoDigits s1 s2)%Z /\
    (0 <= twoDigits h1 h2 * 3600 + twoDigits m1 m2 * 60 + twoDigits s1 s2)%Z.
Proof.
  intros Hlen Hd. cbn [forallb] in Hd.
  repeat (apply andb_true_iff in Hd; destruct Hd as [? Hd]).
  destruct (two_digits_print h1 h2) as (Ph & Qh & Rh1 & Rh2); try assumption.
  destruct (two_digits_print m1 m2) as (Pm & Qm & Rm1 & Rm2); try assumption.
  destruct (two_digits_print s1 s2) as (Ps & Qs & Rs1 & Rs2); try assumption.
  destruct (@parseBRecord_Some o (b :: h1 :: h2 :: m1 :: m2 :: s1 :: s2 :: rest))
    as (f & Hf & _); [cbn [length]; lia|].
  destruct (parseBRecord_time_raw _ _ _ _ _ _ _ _ _ Hf) as (_ & Ht & Hs).
  exists f. split; [exact Hf|].
  rewrite Ht, Hs, Ph, Pm, Ps, Qh, Qm, Qs.
  split; [reflexivity|]. split; [reflexivity|].
  unfold twoDigits. lia.
Qed.

Lemma parseBRecord_time_decoded_witness :
  exists f,
    parseBRecord 0 (js "B1101355206343N00006198WA0058700614") = Some f /\
    IGCParser.time f = js "11:01:35" /\
    timestamp f = Some 39695%Z /\
    (0 <= 39695)%Z.
Proof.
  exact (@parseBRecord_time_decoded 0 66%N 49%N 49%N 48%N 49%N 51%N 53%N
           (js "5206343N00006198WA0058700614") (le_n 28) eq_refl).
Defined.

Lemma formatDuration_hms (h m s : Z) :
  (0 <= h)%Z -> (0 <= m < 60)%Z -> (0 <= s < 60)%Z ->
  ((h * 3600 + m * 60 + s) / 3600 = h /\
   Z.rem (h * 3600 + m * 60 + s) 3600 / 60 = m /\
   Z.rem (h * 3600 + m * 60 + s) 60 = s)%Z.
Proof.
  intros Hh Hm Hs.
  rewrite !Z.rem_mod_nonneg by lia.
  repeat split.
  - symmetry. apply (Z.div_unique _ _ _ (m * 60 + s)); lia.
  - replace ((h * 3600 + m * 60 + s) mod 3600)%Z with (m * 60 + s)%Z.
    + symmetry. apply (Z.div_unique _ _ _ s); lia.
    + apply (Z.mod_unique _ _ h); lia.
  - symmetry. apply (Z.mod_unique _ _ (h * 60 + m)); lia.
Qed.

(** X7. Formatting the time stamp of such a fix gives back its time: when
    the minutes and the seconds of the record are below 60,
    [formatDuration (timestamp)] is the [time] of the fix, for the
    [formatDuration] of the parser and for that of the display. *)
Theorem formatDuration_of_timestamp
  (o : nat) (b h1 h2 m1 m2 s1 s2 : char) (rest : jsstring) (f : Fix) :
  forallb isDigit [h1; h2; m1; m2; s1; s2] = true ->
  (twoDigits m1 m2 < 60)%Z -> (twoDigits s1 s2 < 60)%Z ->
  parseBRecord o (b :: h1 :: h2 :: m1 :: m2 :: s1 :: s2 :: rest) = Some f ->
  IGCParser.formatDuration (timestamp f) = IGCParser.time f /\
  FlightDisplay.formatDuration (timestamp f) = IGCParser.time f.
Proof.
  intros Hd Hm Hs Hf.
  destruct (parseBRecord_time_raw _ _ _ _ _ _ _ _ _ Hf) as (_ & Ht & Hs').
  cbn [forallb] in Hd.
  repeat (apply andb_true_iff in Hd; destruct Hd as [? Hd]).
  destruct (two_digits_print h1 h2) as (Ph & Qh & Rh1 & Rh2); try assumption.
  destruct (two_digits_print m1 m2) as (Pm & Qm & Rm1 & Rm2); try assumption.
  destruct (two_digits_print s1 s2) as (Ps & Qs & Rs1 & Rs2); try assumption.
  rewrite Ph, Pm, Ps in Ht, Hs'. rewrite Qh, Qm, Qs in Ht.
  cbn [iadd imul lift2 Int] in Hs'.
  assert (Hh0 : (0 <= twoDigits h1 h2)%Z) by (unfold twoDigits; lia).
  assert (Hm0 : (0 <= twoDigits m1 m2 < 60)%Z) by (unfold twoDigits in *; lia).
  assert (Hs0 : (0 <= twoDigits s1 s2 < 60)%Z) by (unfold twoDigits in *; lia).
  destruct (formatDuration_hms Hh0 Hm0 Hs0) as (E1 & E2 & E3).
  unfold IGCParser.formatDuration, FlightDisplay.formatDuration.
  rewrite Hs', Ht. cbn [option_map]. rewrite E1, E2, E3, Qh, Qm, Qs.
  split; reflexivity.
Qed.

Lemma formatDuration_of_timestamp_witness :
  exists f,
    parseBRecord 0 (js "B1101355206343N00006198WA0058700614") = Some f /\
    IGCParser.formatDuration (timestamp f) = IGCParser.time f /\
    FlightDisplay.formatDuration (timestamp f) = IGCParser.time f.
Proof.
  destruct (@parseBRecord_Some 0 (js "B1101355206343N00006198WA0058700614"))
    as (f & Hf & _); [vm_compute; lia|].
  exists f. split; [exact Hf|].
  apply (@formatDuration_of_timestamp 0 66%N 49%N 49%N 48%N 49%N 51%N 53%N
           (js "5206343N00006198WA0058700614") f eq_refl);
    [vm_compute; reflexivity | vm_compute; reflexivity | exact Hf].
Defined.

(* ================================================================= *)
(** ** The formatters *)

(** A number below 100 is printed on two digits that read as the number. *)
Lemma two_digits_of (n : Z) :
  (0 <= n < 100)%Z ->
  exists c1 c2,
    padStart0 (intToString (Some n)) 2 = [c1; c2] /\
    isDigit c1 = true /\ isDigit c2 = true /\ twoDigits c1 c2 = n.
Proof.
  intros Hn.
  assert (Hall : forallb
    (fun k => let n := Z.of_nat k in
              let c1 := (48 + Z.to_N (n / 10))%N in
              let c2 := (48 + Z.to_N (n mod 10))%N in
              String_eqb (padStart0 (intToString (Some n)) 2) [c1; c2]
              && isDigit c1 && isDigit c2 && (twoDigits c1 c2 =? n)%Z)
    (seq 0 100) = true) by (vm_compute; reflexivity).
  rewrite forallb_forall in Hall.
  specialize (Hall (Z.to_nat n)).
  rewrite Z2Nat.id in Hall by lia.
  assert (Hin : In (Z.to_nat n) (seq 0 100)) by (apply in_seq; lia).
  apply Hall in Hin. cbv zeta in Hin.
  repeat (apply andb_true_iff in Hin; destruct Hin as [Hin ?]).
  apply String_eqb_eq in Hin.
  do 2 eexists. split; [exact Hin|].
  repeat split; try assumption. now apply Z.eqb_eq.
Qed.

(** X8. For a duration from 0 to below 100 hours, [formatDuration] gives
    the 8 characters HH:MM:SS, and reading the three fields back gives the
    duration: [HH * 3600 + MM * 60 + SS] is the number that was formatted.
    The parser and the display format alike; a duration that is NaN is
    shown as NaN:NaN:NaN. *)
Theorem formatDuration_roundtrip :
  FlightDisplay.formatDuration None = js "NaN:NaN:NaN" /\
  (forall seconds : Z,
      (0 <= seconds < 360000)%Z ->
      let r := FlightDisplay.formatDuration (Some seconds) in
      length r = 8%nat /\
      (parseInt (substr r 0 2) * Int 3600 + parseInt (substr r 3 2) * Int 60
       + parseInt (substr r 6 2))%jint = Some seconds /\
      IGCParser.formatDuration (Some seconds) = r).
Proof.
  split; [reflexivity|].
  intros s Hs r. subst r.
  unfold FlightDisplay.formatDuration, IGCParser.formatDuration.
  cbn [option_map].
  rewrite !Z.rem_mod_nonneg by lia.
  assert (H1 : (0 <= s / 3600 < 100)%Z).
  { split; [apply Z.div_pos; lia | apply Z.div_lt_upper_bound; lia]. }
  pose proof (Z.mod_pos_bound s 3600 ltac:(lia)) as Hm.
  assert (H2 : (0 <= s mod 3600 / 60 < 100)%Z).
  { split; [apply Z.div_pos; lia | apply Z.div_lt_upper_bound; lia]. }
  pose proof (Z.mod_pos_bound s 60 ltac:(lia)) as H3.
  destruct (two_digits_of H1) as (a1 & a2 & Ea & Da1 & Da2 & Va).
  destruct (two_digits_of H2) as (b1 & b2 & Eb & Db1 & Db2 & Vb).
  destruct (@two_digits_of (s mod 60)%Z ltac:(lia))
    as (c1 & c2 & Ec & Dc1 & Dc2 & Vc).
  rewrite Ea, Eb, Ec.
  split; [reflexivity|]. split; [|reflexivity].
  change (js ":") with [58%N].
  unfold substr. cbn [app firstn skipn].
  destruct (two_digits_print a1 a2 Da1 Da2) as (Pa & _).
  destruct (two_digits_print b1 b2 Db1 Db2) as (Pb & _).
  destruct (two_digits_print c1 c2 Dc1 Dc2) as (Pc & _).
  rewrite Pa, Pb, Pc, Va, Vb, Vc. cbn. f_equal.
  pose proof (Z.div_mod s 3600 ltac:(lia)).
  pose proof (Z.div_mod (s mod 3600) 60 ltac:(lia)).
  assert ((s mod 3600) mod 60 = s mod 60)%Z.
  { replace 3600%Z with (60 * 60)%Z at 1 by reflexivity.
    rewrite Z.rem_mul_r by lia.
    rewrite Z.add_mod, Z.mul_comm, Z.mod_mul by lia.
    rewrite Z.add_0_r, !Z.mod_mod by lia. reflexivity. }
  lia.
Qed.

Lemma formatDuration_roundtrip_witness :
  let r := FlightDisplay.formatDuration (Some 39695%Z) in
  length r = 8%nat /\
  (parseInt (substr r 0 2) * Int 3600 + parseInt (substr r 3 2) * Int 60
   + parseInt (substr r 6 2))%jint = Some 39695%Z /\
  IGCParser.formatDuration (Some 39695%Z) = r.
Proof.
  apply (proj2 formatDuration_roundtrip 39695%Z). lia.
Defined.

(** X9. For a time from 0 to below 100 hours, [formatTime] of the altitude
    chart gives the 5 characters HH:MM, the first five of what
    [formatDuration] gives, and reading the two fields back gives the time
    with its seconds dropped. *)
Theorem formatTime_minutes (seconds : Z) :
  (0 <= seconds < 360000)%Z ->
  let r := AltitudeDisplay.formatTime (Some seconds) in
  length r = 5%nat /\
  r = firstn 5 (FlightDisplay.formatDuration (Some seconds)) /\
  (parseInt (substr r 0 2) * Int 3600 + parseInt (substr r 3 2) * Int 60)%jint
  = Some (seconds - seconds mod 60)%Z.
Proof.
  intros Hs r. subst r.
  unfold AltitudeDisplay.formatTime, FlightDisplay.formatDuration.
  cbn [option_map].
  rewrite !Z.rem_mod_nonneg by lia.
  assert (H1 : (0 <= seconds / 3600 < 100)%Z).
  { split; [apply Z.div_pos; lia | apply Z.div_lt_upper_bound; lia]. }
  pose proof (Z.mod_pos_bound seconds 3600 ltac:(lia)) as Hm.
  assert (H2 : (0 <= seconds mod 3600 / 60 < 100)%Z).
  { split; [apply Z.div_pos; lia | apply Z.div_lt_upper_bound; lia]. }
  destruct (two_digits_of H1) as (a1 & a2 & Ea & Da1 & Da2 & Va).
  destruct (two_digits_of H2) as (b1 & b2 & Eb & Db1 & Db2 & Vb).
  rewrite Ea, Eb. change (js ":") with [58%N].
  split; [reflexivity|]. split; [reflexivity|].
  unfold substr. cbn [app firstn skipn].
  destruct (two_digits_print a1 a2 Da1 Da2) as (Pa & _).
  destruct (two_digits_print b1 b2 Db1 Db2) as (Pb & _).
  rewrite Pa, Pb, Va, Vb. cbn. f_equal.
  pose proof (Z.div_mod seconds 3600 ltac:(lia)).
  pose proof (Z.div_mod (seconds mod 3600) 60 ltac:(lia)).
  assert ((seconds mod 3600) mod 60 = seconds mod 60)%Z.
  { replace 3600%Z with (60 * 60)%Z at 1 by reflexivity.
    rewrite Z.rem_mul_r by lia.
    rewrite Z.add_mod, Z.mul_comm, Z.mod_mul by lia.
    rewrite Z.add_0_r, !Z.mod_mod by lia. reflexivity. }
  lia.
Qed.

Lemma formatTime_minutes_witness :
  let r := AltitudeDisplay.formatTime (Some 39695%Z) in
  length r = 5%nat /\
  r = firstn 5 (FlightDisplay.formatDuration (Some 39695%Z)) /\
  (parseInt (substr r 0 2) * Int 3600 + parseInt (substr r 3 2) * Int 60)%jint
  = Some (39695 - 39695 mod 60)%Z.
Proof.
  apply (@formatTime_minutes 39695%Z). lia.
Defined.

(* ================================================================= *)
(** ** Further properties of the statistics *)

Lemma fold_xmax_ints (alts : list Z) (fs : list Fix) (a : Z) :
  map pressureAltitude fs = map Some alts ->
  fold_left (fun m fix_ => xmax m (xint_of (pressureAltitude fix_))) fs (XInt a)
  = XInt (fold_left Z.max alts a).
Proof.
  revert fs a. induction alts as [|x alts IH]; intros [|f fs] a H;
    try discriminate; [reflexivity|].
  simpl in H. injection H as Hx Hrest. simpl. rewrite Hx. simpl.
  now apply IH.
Qed.

Lemma fold_xmin_ints (alts : list Z) (fs : list Fix) (a : Z) :
  map pressureAltitude fs = map Some alts ->
  fold_left (fun m fix_ => xmin m (xint_of (pressureAltitude fix_))) fs (XInt a)
  = XInt (fold_left Z.min alts a).
Proof.
  revert fs a. induction alts as [|x alts IH]; intros [|f fs] a H;
    try discriminate; [reflexivity|].
  simpl in H. injection H as Hx Hrest. simpl. rewrite Hx. simpl.
  now apply IH.
Qed.

Lemma fold_max_spec (l : list Z) (a : Z) :
  (a <= fold_left Z.max l a)%Z /\
  Forall (fun x => x <= fold_left Z.max l a)%Z l /\
  In (fold_left Z.max l a) (a :: l).
Proof.
  revert a. induction l as [|x l IH]; intros a; simpl.
  - repeat split; [lia | constructor | now left].
  - destruct (IH (Z.max a x)) as (H1 & H2 & H3).
    split; [lia|]. split.
    + constructor; [lia | exact H2].
    + destruct H3 as [H3|H3]; [|now right; right].
      rewrite <- H3. destruct (Z.max_spec a x) as [[_ ->]|[_ ->]]; auto.
Qed.

Lemma fold_min_spec (l : list Z) (a : Z) :
  (fold_left Z.min l a <= a)%Z /\
  Forall (fun x => fold_left Z.min l a <= x)%Z l /\
  In (fold_left Z.min l a) (a :: l).
Proof.
  revert a. induction l as [|x l IH]; intros a; simpl.
  - repeat split; [lia | constructor | now left].
  - destruct (IH (Z.min a x)) as (H1 & H2 & H3).
    split; [lia|]. split.
    + constructor; [lia | exact H2].
    + destruct H3 as [H3|H3]; [|now right; right].
      rewrite <- H3. destruct (Z.min_spec a x) as [[_ ->]|[_ ->]]; auto.
Qed.

Lemma last_map_altitude (fs : list Fix) (zs : list Z) (d : Fix) (z : Z) :
  pressureAltitude d = Some z ->
  map pressureAltitude fs = map Some zs ->
  pressureAltitude (last fs d) = Some (last zs z).
Proof.
  intros Hd. revert zs. induction fs as [|f fs IH]; intros [|z' zs] Hm;
    try discriminate; [exact Hd|].
  simpl in Hm. injection Hm as Hf Hm.
  destruct fs as [|g fs], zs as [|z2 zs]; try discriminate; [exact Hf|].
  change (last (f :: g :: fs) d) with (last (g :: fs) d).
  change (last (z' :: z2 :: zs) z) with (last (z2 :: zs) z).
  now apply IH.
Qed.

Lemma last_In {A} (l : list A) (d : A) : In (last l d) (d :: l).
Proof.
  revert d. induction l as [|x l IH]; intros d; [now left|].
  destruct l as [|y l]; [right; now left|].
  change (last (x :: y :: l) d) with (last (y :: l) d).
  destruct (IH d) as [H|H]; [left; exact H | right; right; exact H].
Qed.

(** X10. For a flight that is not empty and whose pressure altitudes are all
    numbers, the maximal and the minimal altitude of the statistics are
    altitudes of fixes of the flight, they bound the altitude of every fix,
    and so the take-off and the landing altitude lie between them. *)
Theorem altitude_extremes (first : Fix) (rest : list Fix) (alts : list Z) :
  map pressureAltitude (first :: rest) = map Some alts ->
  let st := calculateFlightStats (first :: rest) in
  exists lo hi takeoff landing,
    minAltitude st = XInt lo /\ maxAltitude st = XInt hi /\
    In lo alts /\ In hi alts /\
    Forall (fun a => lo <= a <= hi)%Z alts /\
    takeoffAltitude st = Some takeoff /\ landingAltitude st = Some landing /\
    (lo <= takeoff <= hi)%Z /\ (lo <= landing <= hi)%Z.
Proof.
  intros Halts st. subst st.
  destruct alts as [|a alts]; [discriminate|].
  pose proof Halts as H0. simpl in H0. injection H0 as Ha Hrest.
  unfold calculateFlightStats.
  destruct (fold_left climbSink_step (pairs (first :: rest)) (Num 0, Num 0))
    as [maxClimb maxSink].
  cbn [minAltitude maxAltitude takeoffAltitude landingAltitude].
  cbn [fold_left]. rewrite Ha. cbn [xint_of xmax xmin].
  rewrite (fold_xmax_ints alts rest a Hrest), (fold_xmin_ints alts rest a Hrest).
  destruct (fold_max_spec alts a) as (M1 & M2 & M3).
  destruct (fold_min_spec alts a) as (N1 & N2 & N3).
  assert (Hall : Forall (fun x => fold_left Z.min alts a <= x
                                  <= fold_left Z.max alts a)%Z (a :: alts)).
  { constructor; [lia|].
    rewrite Forall_forall in *. intros x Hx.
    specialize (M2 x Hx). specialize (N2 x Hx). lia. }
  pose proof (@last_map_altitude rest alts first a Ha Hrest) as Hl.
  pose proof (@last_In _ alts a) as Hin.
  change (last (first :: rest) first) with
    (match rest with [] => first | _ :: _ => last rest first end).
  replace (match rest with [] => first | _ :: _ => last rest first end)
    with (last rest first) by (now destruct rest).
  set (l := last alts a) in *.
  exists (fold_left Z.min alts a), (fold_left Z.max alts a), a, l.
  repeat split; try assumption; try reflexivity;
    rewrite Forall_forall in Hall;
    try (apply (Hall a); now left); apply (Hall l Hin).
Qed.

Lemma altitude_extremes_witness :
  let st := calculateFlightStats
              [sampleFixAlt 0 0 500; sampleFixAlt 1 10 900; sampleFixAlt 2 20 300] in
  exists lo hi takeoff landing,
    minAltitude st = XInt lo /\ maxAltitude st = XInt hi /\
    In lo [500; 900; 300]%Z /\ In hi [500; 900; 300]%Z /\
    Forall (fun a => lo <= a <= hi)%Z [500; 900; 300]%Z /\
    takeoffAltitude st = Some takeoff /\ landingAltitude st = Some landing /\
    (lo <= takeoff <= hi)%Z /\ (lo <= landing <= hi)%Z.
Proof.
  exact (@altitude_extremes (sampleFixAlt 0 0 500)
           [sampleFixAlt 1 10 900; sampleFixAlt 2 20 300]
           [500; 900; 300]%Z eq_refl).
Defined.

(** X11. When the first and the last fix have time stamps within one day
    (from 0 to below 86400), the duration is a number of seconds from 0 to
    below 86400: it is never negative, also when the flight crosses
    midnight. *)
Theorem duration_within_a_day (first : Fix) (rest : list Fix) (s e : Z) :
  timestamp first = Some s ->
  timestamp (last (first :: rest) first) = Some e ->
  (0 <= s < 86400)%Z -> (0 <= e < 86400)%Z ->
  exists d,
    duration (calculateFlightStats (first :: rest)) = Some d /\
    (0 <= d < 86400)%Z /\ ((d - (e - s)) mod 86400 = 0)%Z.
Proof.
  intros Hs He Rs Re. unfold calculateFlightStats.
  destruct (fold_left climbSink_step (pairs (first :: rest)) (Num 0, Num 0))
    as [maxClimb maxSink].
  cbn [duration]. rewrite Hs, He. unfold flightDuration. cbn.
  destruct (e - s <? 0)%Z eqn:E.
  - apply Z.ltb_lt in E. eexists. split; [reflexivity|]. split; [lia|].
    replace (e - s + 86400 - (e - s))%Z with (1 * 86400)%Z by lia.
    apply Z.mod_mul. lia.
  - apply Z.ltb_ge in E. eexists. split; [reflexivity|]. split; [lia|].
    now rewrite Z.sub_diag.
Qed.

Lemma duration_within_a_day_witness :
  exists d,
    duration (calculateFlightStats
                [sampleFix 0 86300; sampleFix 1 86350; sampleFix 2 40]) = Some d /\
    (0 <= d < 86400)%Z /\ ((d - (40 - 86300)) mod 86400 = 0)%Z.
Proof.
  apply (@duration_within_a_day (sampleFix 0 86300)
           [sampleFix 1 86350; sampleFix 2 40] 86300%Z 40%Z);
    try reflexivity; lia.
Defined.

Lemma climbSink_step_inv (acc : num * num) (p : Fix * Fix) :
  (exists c s, acc = (Some c, Some s) /\ (0 <= c)%R /\ (s <= 0)%R) ->
  (forall f, f = fst p \/ f = snd p ->
             timestamp f <> None /\ pressureAltitude f <> None) ->
  exists c s, climbSink_step acc p = (Some c, Some s) /\ (0 <= c)%R /\ (s <= 0)%R.
Proof.
  intros (c & s & -> & Hc & Hs) Hp. destruct p as [prev cur].
  destruct (Hp prev (or_introl eq_refl)) as [Tp Ap].
  destruct (Hp cur (or_intror eq_refl)) as [Tc Ac].
  unfold climbSink_step.
  destruct (timestamp prev) as [tp|], (timestamp cur) as [tc|],
           (pressureAltitude prev) as [ap|], (pressureAltitude cur) as [ac|];
    try congruence.
  cbn -[Rmax Rmin IZR].
  destruct (0 <? tc - tp)%Z eqn:E; [|eauto].
  apply Z.ltb_lt in E.
  destruct (Req_dec_T (IZR (tc - tp)) 0) as [Z0|_].
  { apply eq_IZR in Z0. lia. }
  cbn -[Rmax Rmin IZR]. do 2 eexists. split; [reflexivity|].
  split.
  - eapply Rle_trans; [exact Hc | apply Rmax_l].
  - eapply Rle_trans; [apply Rmin_l | exact Hs].
Qed.

(** X12. For a flight whose time stamps and pressure altitudes are all
    numbers, the maximal climb and the maximal sink of the statistics are
    numbers and are not negative: the sink is reported as a magnitude. *)
Theorem climb_and_sink_not_negative (fixes : list Fix) :
  Forall (fun f => timestamp f <> None /\ pressureAltitude f <> None) fixes ->
  exists climb sink,
    maxClimb (calculateFlightStats fixes) = Some climb /\
    maxSink (calculateFlightStats fixes) = Some sink /\
    (0 <= climb)%R /\ (0 <= sink)%R.
Proof.
  intros Hall.
  destruct fixes as [|first rest].
  { exists 0%R, 0%R. cbn. repeat split; lra. }
  assert (G : forall (l : list Fix) (acc : num * num),
    Forall (fun f => timestamp f <> None /\ pressureAltitude f <> None) l ->
    (exists c s, acc = (Some c, Some s) /\ (0 <= c)%R /\ (s <= 0)%R) ->
    exists c s, fold_left climbSink_step (pairs l) acc = (Some c, Some s)
                /\ (0 <= c)%R /\ (s <= 0)%R).
  { induction l as [|a l IH]; intros acc Hl Hacc; [exact Hacc|].
    destruct l as [|b l]; [exact Hacc|].
    change (pairs (a :: b :: l)) with ((a, b) :: pairs (b :: l)).
    cbn [fold_left]. apply IH.
    - now inversion Hl.
    - apply climbSink_step_inv; [exact Hacc|].
      inversion Hl as [|? ? Ha Hl']. inversion Hl' as [|? ? Hb _].
      intros f [->| ->]; assumption. }
  destruct (G (first :: rest) (Num 0, Num 0) Hall) as (c & s & E & Hc & Hs).
  { exists 0%R, 0%R. repeat split; lra. }
  unfold calculateFlightStats. rewrite E. cbn [maxClimb maxSink Math_abs option_map].
  exists c, (Rabs s). repeat split; [exact Hc | apply Rabs_pos].
Qed.

Lemma climb_and_sink_not_negative_witness :
  exists climb sink,
    maxClimb (calculateFlightStats
                [sampleFixAlt 0 0 500; sampleFixAlt 1 10 900]) = Some climb /\
    maxSink (calculateFlightStats
               [sampleFixAlt 0 0 500; sampleFixAlt 1 10 900]) = Some sink /\
    (0 <= climb)%R /\ (0 <= sink)%R.
Proof.
  apply (@climb_and_sink_not_negative
           [sampleFixAlt 0 0 500; sampleFixAlt 1 10 900]).
  repeat constructor; discriminate.
Defined.

(* ================================================================= *)
(** ** Further properties of the geometry *)

Lemma haversine_a_range (lat1 lon1 lat2 lon2 : R) :
  (0 <= haversine_a lat1 lon1 lat2 lon2 <= 1)%R.
Proof.
  unfold haversine_a.
  set (u := (lat1 * PI / 180)%R). set (v := (lat2 * PI / 180)%R).
  set (d := ((lat2 - lat1) * PI / 180 / 2)%R).
  set (t := sin ((lon2 - lon1) * PI / 180 / 2)).
  assert (Hd : (v - u = 2 * d)%R) by (unfold u, v, d; field).
  pose proof (cos_minus v u) as Hm. pose proof (cos_plus v u) as Hp.
  rewrite Hd in Hm. rewrite cos_2a_sin in Hm.
  pose proof (COS_bound (v + u)) as [Hb1 Hb2].
  pose proof (SIN_bound ((lon2 - lon1) * PI / 180 / 2)) as [Ht1 Ht2].
  fold t in Ht1, Ht2.
  pose proof (SIN_bound d) as [Hs1 Hs2].
  set (s := sin d) in *. set (cu := cos u) in *. set (cv := cos v) in *.
  set (su := sin u) in *. set (sv := sin v) in *.
  assert (Hc1 : (- (s * s) <= cu * cv)%R) by nra.
  assert (Hc2 : (cu * cv <= 1 - s * s)%R) by nra.
  assert (Ht : (0 <= t * t <= 1)%R) by nra.
  assert (Hss : (0 <= s * s <= 1)%R) by nra.
  set (tt := (t * t)%R) in *. set (ss := (s * s)%R) in *.
  set (c := (cu * cv)%R) in *.
  replace (c * t * t)%R with (c * tt)%R by (unfold tt; ring).
  split; nra.
Qed.

(** The haversine distance on real coordinates, written out. *)
Lemma haversine_real (lat1 lon1 lat2 lon2 : R) :
  calculateHaversineDistance (Some lat1) (Some lon1) (Some lat2) (Some lon2) =
  Some (6371 * (2 * atan2R (sqrt (haversine_a lat1 lon1 lat2 lon2))
                           (sqrt (1 - haversine_a lat1 lon1 lat2 lon2))))%R.
Proof.
  pose proof (haversine_a_range lat1 lon1 lat2 lon2) as [H0 H1].
  unfold calculateHaversineDistance, Math_PI, Num. simpl.
  repeat match goal with
         | |- context [Req_dec_T ?a 0] =>
             destruct (Req_dec_T a 0) as [E|_]; [exfalso; lra|]; simpl
         end.
  fold (haversine_a lat1 lon1 lat2 lon2).
  destruct (Rlt_dec (haversine_a lat1 lon1 lat2 lon2) 0); [lra|].
  destruct (Rlt_dec (1 - haversine_a lat1 lon1 lat2 lon2) 0); [lra|].
  reflexivity.
Qed.



Lemma haversine_self (lat lon : R) :
  calculateHaversineDistance (Some lat) (Some lon) (Some lat) (Some lon)
  = Some 0%R.
Proof.
  rewrite haversine_real.
  assert (Ha : haversine_a lat lon lat lon = 0%R).
  { unfold haversine_a.
    replace ((lat - lat) * PI / 180 / 2)%R with 0%R by field.
    replace ((lon - lon) * PI / 180 / 2)%R with 0%R by field.
    rewrite sin_0. ring. }
  rewrite Ha, Rminus_0_r, sqrt_0, sqrt_1.
  unfold atan2R. destruct (Rlt_dec 0 1); [|lra].
  unfold Rdiv. rewrite Rmult_0_l, atan_0. f_equal. ring.
Qed.

(** X14. On real coordinates the haversine distance from a point to itself
    is 0, and the distance does not depend on the direction. *)
Theorem haversine_distance_symmetric (lat1 lon1 lat2 lon2 : R) :
  calculateHaversineDistance (Some lat1) (Some lon1) (Some lat1) (Some lon1)
  = Some 0%R /\
  calculateHaversineDistance (Some lat1) (Some lon1) (Some lat2) (Some lon2) =
  calculateHaversineDistance (Some lat2) (Some lon2) (Some lat1) (Some lon1).
Proof.
  split.
  - apply haversine_self.
  - rewrite !haversine_real.
    assert (Ha : haversine_a lat1 lon1 lat2 lon2 =
                 haversine_a lat2 lon2 lat1 lon1).
    { unfold haversine_a.
      replace ((lat1 - lat2) * PI / 180 / 2)%R
        with (- ((lat2 - lat1) * PI / 180 / 2))%R by field.
      replace ((lon1 - lon2) * PI / 180 / 2)%R
        with (- ((lon2 - lon1) * PI / 180 / 2))%R by field.
      rewrite !sin_neg. ring. }
    now rewrite Ha.
Qed.

Lemma calculateDistance_haversine (lat1 lon1 lat2 lon2 : num) :
  IGCParser.calculateDistance lat1 lon1 lat2 lon2 =
  calculateHaversineDistance lat1 lon1 lat2 lon2.
Proof. reflexivity. Qed.

(** X15. The parser and the waypoint generator measure a flight alike: the
    distance of the statistics is the total distance of the generator, for
    every fix sequence; so, after [generateWaypoints] on a parsed log with
    at least one fix, the [flightDistance] of the generator is the
    [distance] of the statistics of the log. *)
Theorem distance_agreement :
  (forall fixes : list Fix,
      distance (calculateFlightStats fixes) = calculateTotalDistance fixes) /\
  (forall (this : WaypointGenerator) (text level : jsstring),
      fixes (parse text) <> [] ->
      flightDistance (snd (generateWaypoints this (parse text) level)) =
      distance (stats (parse text))).
Proof.
  assert (H : forall fixes : list Fix,
      distance (calculateFlightStats fixes) = calculateTotalDistance fixes).
  { intros fixes. unfold calculateFlightStats, calculateTotalDistance.
    destruct fixes as [|first rest]; [reflexivity|].
    destruct (fold_left climbSink_step (pairs (first :: rest)) (Num 0, Num 0))
      as [maxClimb maxSink].
    cbn [distance].
    destruct rest as [|second rest]; [reflexivity|].
    cbn [length Nat.ltb Nat.leb].
    apply fold_left_pointwise. intros d p. reflexivity. }
  split; [exact H|].
  intros this text level Hne.
  unfold generateWaypoints.
  destruct (fixes (parse text)) as [|takeoff rest] eqn:E; [contradiction|].
  cbn [snd flightDistance]. rewrite <- H.
  unfold parse, parse_lines in *. cbn [fixes stats] in *. now rewrite E.
Qed.

Lemma distance_agreement_witness :
  flightDistance
    (snd (generateWaypoints constructor
            (parse (js "B1101355206343N00006198WA0058700614")) (js "low"))) =
  distance (stats (parse (js "B1101355206343N00006198WA0058700614"))).
Proof.
  apply (proj2 distance_agreement constructor
           (js "B1101355206343N00006198WA0058700614") (js "low")).
  intros H. apply (f_equal (map oid)) in H.
  unfold parse, parse_lines in H. cbn [fixes] in H.
  rewrite fold_parse_line_oids in H. vm_compute in H. discriminate.
Defined.




(* ================================================================= *)
(** ** Further properties of the waypoint budget *)

Ltac eval_level :=
  repeat match goal with
         | |- context [String_eqb ?a ?b] =>
             let v := eval vm_compute in (String_eqb a b) in
             change (String_eqb a b) with v
         end;
  cbv iota.

(** X18. At every real distance a finer level never gets fewer waypoints:
    the budget of low is at least that of medium, which is at least that of
    high. *)
Theorem budget_level_order (d : R) :
  exists l m h,
    getTargetWaypointCount (Some d) (js "low") = Some l /\
    getTargetWaypointCount (Some d) (js "medium") = Some m /\
    getTargetWaypointCount (Some d) (js "high") = Some h /\
    (h <= m <= l)%Z.
Proof.
  assert (Bl : baseCount (Some d) (js "low") = Some (Z.min 12 (ceilR (d / 15)))).
  { unfold baseCount. eval_level. now rewrite ndiv_const by discriminate. }
  assert (Bm : baseCount (Some d) (js "medium") = Some (Z.min 8 (ceilR (d / 25)))).
  { unfold baseCount. eval_level. now rewrite ndiv_const by discriminate. }
  assert (Bh : baseCount (Some d) (js "high") = Some (Z.min 5 (ceilR (d / 40)))).
  { unfold baseCount. eval_level. now rewrite ndiv_const by discriminate. }
  rewrite (budget_unfold _ _ Bl), (budget_unfold _ _ Bm), (budget_unfold _ _ Bh).
  do 3 eexists. repeat (split; [reflexivity|]).
  destruct (Rle_dec d 20) as [H20|H20].
  - (* up to 20 km every base count is at most 2 *)
    assert (ceilR (d / 15) <= 2)%Z.
    { unfold ceilR. destruct (floorR_spec (- (d / 15))) as [_ Hf].
      assert (IZR (-2) < IZR (floorR (- (d / 15)) + 1))%R
        by (rewrite plus_IZR; lra).
      apply lt_IZR in H. lia. }
    assert (ceilR (d / 25) <= 1)%Z.
    { unfold ceilR. destruct (floorR_spec (- (d / 25))) as [_ Hf].
      assert (IZR (-1) < IZR (floorR (- (d / 25)) + 1))%R
        by (rewrite plus_IZR; lra).
      apply lt_IZR in H0. lia. }
    assert (ceilR (d / 40) <= 1)%Z.
    { unfold ceilR. destruct (floorR_spec (- (d / 40))) as [_ Hf].
      assert (IZR (-1) < IZR (floorR (- (d / 40)) + 1))%R
        by (rewrite plus_IZR; lra).
      apply lt_IZR in H1. lia. }
    lia.
  - assert (ceilR (d / 40) <= ceilR (d / 25))%Z by (apply ceilR_mono; lra).
    assert (ceilR (d / 25) <= ceilR (d / 15))%Z by (apply ceilR_mono; lra).
    destruct (Rle_dec d 100); [lia|]. destruct (Rle_dec d 300); lia.
Qed.

(* ================================================================= *)
(** ** Further properties of the waypoint generation *)

Lemma push_selected_named (sel : list Candidate) (wps : list Waypoint) :
  fold_left push_selected sel wps = wps ++ named (length wps) sel.
Proof.
  revert wps. induction sel as [|c sel IH]; intros wps; simpl.
  - now rewrite app_nil_r.
  - rewrite IH. unfold push_selected. rewrite <- app_assoc, length_app.
    simpl. now rewrite Nat.add_1_r.
Qed.

(** The waypoints of a flight that is not empty, by the named steps. *)
Lemma generateWaypoints_selected (this : WaypointGenerator)
  (flightData : FlightData) (level : jsstring) (first : Fix) (rest : list Fix) :
  fixes flightData = first :: rest ->
  fst (generateWaypoints this flightData level) =
  endpoint "TAKEOFF" first
  :: named 1 (selected (first :: rest) level)
  ++ [endpoint "LANDING" (last (first :: rest) first)].
Proof.
  intros Hf. unfold generateWaypoints. rewrite Hf. cbn [fst].
  rewrite only_endpoints_budget, push_selected_named. reflexivity.
Qed.

Lemma sort_insert_In {A} (after : A -> A -> bool) (x y : A) (l : list A) :
  In y (sort_insert after x l) <-> y = x \/ In y l.
Proof.
  induction l as [|z l IH]; simpl; [intuition|].
  destruct (after x z); simpl; rewrite ?IH; intuition.
Qed.

Lemma Array_sort_In {A} (after : A -> A -> bool) (y : A) (l : list A) :
  In y (Array_sort after l) <-> In y l.
Proof.
  unfold Array_sort. induction l as [|x l IH]; simpl; [reflexivity|].
  rewrite sort_insert_In, IH. intuition.
Qed.

Lemma Array_slice0_incl {A} (l : list A) (n : jint) (y : A) :
  In y (Array_slice0 l n) -> In y l.
Proof.
  unfold Array_slice0. intros H.
  rewrite <- (firstn_skipn
    (Z.to_nat
       (let len := Z.of_nat (length l) in
        let relativeEnd := match n with Some z => z | None => 0%Z end in
        if (relativeEnd <? 0)%Z then Z.max (len + relativeEnd) 0
        else Z.min relativeEnd len)) l).
  apply in_or_app. left. exact H.
Qed.

Lemma sampleLoop_In (fuel : nat) (fixes : list Fix) (d : Fix)
  (sampleRate i : nat) (acc : list Fix) (f : Fix) :
  In f (sampleLoop fuel fixes d sampleRate i acc) -> In f acc \/ In f fixes.
Proof.
  revert i acc. induction fuel as [|fuel IH]; intros i acc; simpl; [auto|].
  destruct (i <? length fixes)%nat eqn:E; [|auto].
  intros H. apply IH in H. destruct H as [H|H]; [|auto].
  apply in_app_or in H. destruct H as [H|[<-|[]]]; [auto|].
  right. apply nth_In. now apply Nat.ltb_lt.
Qed.

Lemma sampled_In (fixes : list Fix) (f : Fix) :
  In f (sampled fixes) -> In f fixes.
Proof.
  unfold sampled. destruct fixes as [|takeoff rest]; [auto|].
  cbv zeta.
  assert (Hlast : In (last (takeoff :: rest) takeoff) (takeoff :: rest)).
  { destruct (@last_In _ rest takeoff) as [H|H].
    - destruct rest; [now left|]. left. exact H.
    - destruct rest; [now left|]. right. exact H. }
  destruct (negb _); intros Hin.
  - apply in_app_or in Hin. destruct Hin as [Hin|[<-|[]]]; [|exact Hlast].
    apply sampleLoop_In in Hin. destruct Hin as [[]|Hin]; exact Hin.
  - apply sampleLoop_In in Hin. destruct Hin as [[]|Hin]; exact Hin.
Qed.

Lemma triples_In {A} (l : list A) (a b c : A) :
  In (a, b, c) (triples l) -> In a l /\ In b l /\ In c l.
Proof.
  induction l as [|x l IH]; [intros []|].
  destruct l as [|y [|z l]]; [intros [] | intros [] |].
  change (triples (x :: y :: z :: l)) with ((x, y, z) :: triples (y :: z :: l)).
  intros [H|H].
  - injection H as -> -> ->. simpl. intuition.
  - destruct (IH H) as (Ha & Hb & Hc). simpl in *. intuition.
Qed.

Lemma scan_step_fix (level : jsstring) (prev cur next : Fix) (c : Candidate) :
  In c (scan_step level (prev, cur, next)) -> fix_ c = cur.
Proof.
  unfold scan_step.
  destruct (nlt _ _); [intros []|].
  intros H. apply in_app_or in H. destruct H as [H|H].
  - destruct (ngt _ _); [|destruct H]. destruct H as [<-|[]]. reflexivity.
  - destruct (_ && _); [|destruct H]. destruct H as [<-|[]]. reflexivity.
Qed.

Lemma candidates_In (fixes : list Fix) (level : jsstring) (c : Candidate) :
  In c (candidates fixes level) -> In (fix_ c) fixes.
Proof.
  unfold candidates. intros H. apply in_flat_map in H.
  destruct H as ([[prev cur] next] & Ht & Hc).
  apply scan_step_fix in Hc. rewrite Hc.
  apply triples_In in Ht. destruct Ht as (_ & Hcur & _).
  now apply sampled_In.
Qed.

Lemma selected_In (fixes : list Fix) (level : jsstring) (c : Candidate) :
  In c (selected fixes level) -> In c (candidates fixes level).
Proof.
  unfold selected, ranked. intros H.
  apply Array_sort_In, Array_slice0_incl, Array_sort_In in H. exact H.
Qed.

Lemma selected_length (fixes : list Fix) (level : jsstring) :
  (length (selected fixes level) <= 13)%nat.
Proof.
  unfold selected. rewrite Array_sort_length.
  destruct (budget_cases (calculateTotalDistance fixes) level)
    as [En|(n & En & Hn)]; rewrite En.
  - rewrite Array_slice0_NaN. simpl. lia.
  - pose proof (@Array_slice0_length _ (ranked fixes level) n). lia.
Qed.

(** X19. The waypoints of a flight that is not empty are TAKEOFF, then one
    waypoint for each candidate that is kept, then LANDING. At most 13
    candidates are kept; the waypoint of each has the position, altitude
    and time of a fix of the flight, and its name is TURN or WP followed by
    its index in the returned array (a running number over both kinds). *)
Theorem generateWaypoints_structure (this : WaypointGenerator)
  (flightData : FlightData) (level : jsstring) (first : Fix) (rest : list Fix) :
  fixes flightData = first :: rest ->
  let sel := selected (first :: rest) level in
  let result := fst (generateWaypoints this flightData level) in
  result = endpoint "TAKEOFF" first :: named 1 sel
           ++ [endpoint "LANDING" (last (first :: rest) first)] /\
  (length sel <= 13)%nat /\
  Forall (fun c => In (fix_ c) (first :: rest)) sel /\
  (forall i c,
      nth_error sel i = Some c ->
      exists w,
        nth_error result (S i) = Some w /\
        name w = (match type c with
                  | turn => js "TURN"
                  | altitude_change => js "WP"
                  end) ++ natToString (S i) /\
        lat w = latitude (fix_ c) /\ lng w = longitude (fix_ c) /\
        altitude w = pressureAltitude (fix_ c) /\
        time w = IGCParser.time (fix_ c)).
Proof.
  intros Hf sel result. subst result.
  rewrite (generateWaypoints_selected this flightData level Hf). fold sel.
  split; [reflexivity|]. split; [apply selected_length|]. split.
  - apply Forall_forall. intros c Hc.
    now apply candidates_In with (level := level), selected_In.
  - assert (G : forall (l : list Candidate) (k i : nat) (c : Candidate) tl,
        nth_error l i = Some c ->
        exists w,
          nth_error (named k l ++ tl) i = Some w /\
          name w = (match type c with
                    | turn => js "TURN"
                    | altitude_change => js "WP"
                    end) ++ natToString (k + i) /\
          lat w = latitude (fix_ c) /\ lng w = longitude (fix_ c) /\
          altitude w = pressureAltitude (fix_ c) /\
          time w = IGCParser.time (fix_ c)).
    { induction l as [|x l IH]; intros k [|i] c tl H; try discriminate.
      - injection H as ->. eexists. split; [reflexivity|].
        rewrite Nat.add_0_r. repeat split.
      - simpl in H. destruct (IH (S k) i c tl H) as (w & Hw & Hn & Hrest).
        exists w. split; [exact Hw|].
        rewrite Nat.add_succ_r. split; [exact Hn | exact Hrest]. }
    intros i c Hi. cbn [nth_error].
    destruct (G sel 1%nat i c
                [endpoint "LANDING" (last (first :: rest) first)] Hi)
      as (w & Hw & Hn & Hrest).
    exists w. split; [exact Hw|]. split; [exact Hn | exact Hrest].
Qed.

Lemma generateWaypoints_structure_witness :
  let fixes := [sampleFix 0 100; sampleFix 1 200; sampleFix 2 300] in
  let sel := selected fixes (js "medium") in
  let result :=
    fst (generateWaypoints constructor (sampleFlight fixes) (js "medium")) in
  result = endpoint "TAKEOFF" (sampleFix 0 100) :: named 1 sel
           ++ [endpoint "LANDING" (sampleFix 2 300)] /\
  (length sel <= 13)%nat /\
  Forall (fun c => In (fix_ c) fixes) sel.
Proof.
  destruct (@generateWaypoints_structure constructor
              (sampleFlight [sampleFix 0 100; sampleFix 1 200; sampleFix 2 300])
              (js "medium") (sampleFix 0 100)
              [sampleFix 1 200; sampleFix 2 300] eq_refl)
    as (H1 & H2 & H3 & _).
  exact (conj H1 (conj H2 H3)).
Defined.

Lemma sort_insert_sorted {A} (key : A -> Z) (x : A) (l : list A) :
  StronglySorted (fun a b => key a <= key b)%Z l ->
  StronglySorted (fun a b => key a <= key b)%Z
                 (sort_insert (fun a b => (0 <? key a - key b)%Z) x l).
Proof.
  induction l as [|y l IH]; intros Hs; simpl.
  - constructor; constructor.
  - inversion Hs as [|? ? Hl Hy]; subst.
    destruct (0 <? key x - key y)%Z eqn:E.
    + apply Z.ltb_lt in E. constructor; [now apply IH|].
      apply Forall_forall. intros z Hz. apply sort_insert_In in Hz.
      destruct Hz as [->|Hz]; [lia|].
      rewrite Forall_forall in Hy. now apply Hy.
    + apply Z.ltb_ge in E. constructor; [exact Hs|].
      constructor; [lia|].
      rewrite Forall_forall in Hy |- *. intros z Hz.
      specialize (Hy z Hz). lia.
Qed.

Lemma Array_sort_sorted {A} (key : A -> Z) (l : list A) :
  StronglySorted (fun a b => key a <= key b)%Z
                 (Array_sort (fun a b => (0 <? key a - key b)%Z) l).
Proof.
  unfold Array_sort. induction l as [|x l IH]; simpl; [constructor|].
  now apply sort_insert_sorted.
Qed.

Lemma indexOf_from_In (fixes : list Fix) (f : Fix) (i : Z) :
  In f fixes ->
  (i <= indexOf_from fixes f i < i + Z.of_nat (length fixes))%Z.
Proof.
  revert i. induction fixes as [|g fixes IH]; intros i; [intros []|].
  intros Hin. cbn [indexOf_from length].
  destruct (oid g =? oid f)%nat eqn:E; [lia|].
  destruct Hin as [->|Hin]; [rewrite Nat.eqb_refl in E; discriminate|].
  specialize (IH (i + 1)%Z Hin). lia.
Qed.

(** X20. The kept candidates are in path order: along the returned array
    the index of the fix in the flight (as [indexOf] finds it) never
    decreases, and every kept fix is found in the flight, at an index from
    0 to below the number of fixes. *)
Theorem selected_in_path_order (fixes : list Fix) (level : jsstring) :
  StronglySorted
    (fun a b => indexOf fixes (fix_ a) <= indexOf fixes (fix_ b))%Z
    (selected fixes level) /\
  Forall (fun c => 0 <= indexOf fixes (fix_ c) < Z.of_nat (length fixes))%Z
         (selected fixes level).
Proof.
  split.
  - unfold selected.
    apply (Array_sort_sorted (fun c => indexOf fixes (fix_ c))).
  - apply Forall_forall. intros c Hc.
    apply selected_In, candidates_In in Hc.
    pose proof (indexOf_from_In fixes (fix_ c) 0 Hc) as H.
    unfold indexOf. lia.
Qed.

Ltac decide_divisors :=
  repeat match goal with
         | |- context [Req_dec_T ?a 0] =>
             destruct (Req_dec_T a 0) as [?E|_];
             [exfalso; first [ now apply PI_neq0' | lra ]|]; cbn
         | H : context [Req_dec_T ?a 0] |- _ =>
             destruct (Req_dec_T a 0) as [?E|_];
             [exfalso; first [ now apply PI_neq0' | lra ]|]; cbn in H
         end.

Lemma calculateBearing_Some (lat1 lon1 lat2 lon2 : num) (b : R) :
  calculateBearing lat1 lon1 lat2 lon2 = Some b -> (0 <= b < 360)%R.
Proof.
  destruct lat1 as [la1|], lon1 as [lo1|], lat2 as [la2|], lon2 as [lo2|];
    try (unfold calculateBearing, Math_PI, Num; cbn; decide_divisors;
         discriminate).
  destruct (calculateBearing_range la1 lo1 la2 lo2) as (b' & E & H).
  rewrite E. now intros [= <-].
Qed.

(** A course change that is a number lies between 0 and 180. *)
Lemma calculateCourseChange_Some (lat1 lon1 lat2 lon2 lat3 lon3 : num) (v : R) :
  calculateCourseChange lat1 lon1 lat2 lon2 lat3 lon3 = Some v ->
  (0 <= v <= 180)%R.
Proof.
  unfold calculateCourseChange.
  destruct (calculateBearing lat1 lon1 lat2 lon2) as [b1|] eqn:E1;
    [|cbn; discriminate].
  destruct (calculateBearing lat2 lon2 lat3 lon3) as [b2|] eqn:E2;
    [|cbn; discriminate].
  apply calculateBearing_Some in E1, E2.
  unfold ngt, nlt, Num. cbn.
  pose proof (Rabs_pos (b1 - b2)) as Hpos.
  assert (Rabs (b1 - b2) < 360)%R by (apply Rabs_def1; lra).
  destruct (Rlt_dec 180 (Rabs (b1 - b2))); cbn; intros [= <-]; lra.
Qed.

(** X21. Every candidate of the scan has a number as importance. A turn
    candidate has an importance above twice the turn threshold of the
    level (so above 60) and up to 360; an altitude candidate has an
    importance above 4. *)
Theorem candidate_importance (fixes : list Fix) (level : jsstring) :
  Forall
    (fun c =>
       exists r threshold,
         importance c = Some r /\
         turnThreshold level = Some threshold /\ (30 <= threshold)%R /\
         match type c with
         | turn => (2 * threshold < r <= 360)%R
         | altitude_change => (4 < r)%R
         end)
    (candidates fixes level).
Proof.
  apply Forall_forall. intros c.
  unfold candidates. intros H. apply in_flat_map in H.
  destruct H as ([[prev cur] next] & _ & Hc).
  assert (Ht : exists t, turnThreshold level = Some t /\ (30 <= t)%R).
  { unfold turnThreshold, Num.
    destruct (String_eqb level (js "low"));
      [|destruct (String_eqb level (js "medium"))];
      eexists; (split; [reflexivity|lra]). }
  destruct Ht as (t & Ht & Ht30).
  unfold scan_step in Hc.
  destruct (nlt _ _); [destruct Hc|].
  apply in_app_or in Hc. destruct Hc as [Hc|Hc].
  - destruct (ngt _ _) eqn:G; [|destruct Hc]. destruct Hc as [<-|[]].
    cbn [importance type]. rewrite Ht in G.
    destruct (calculateCourseChange _ _ _ _ _ _) as [v|] eqn:Ev;
      [|discriminate].
    apply calculateCourseChange_Some in Ev.
    unfold ngt, nlt in G. destruct (Rlt_dec t v); [|discriminate].
    exists (v * 2)%R, t. cbn. repeat split; try assumption; lra.
  - destruct (_ && _) eqn:G; [|destruct Hc]. destruct Hc as [<-|[]].
    cbn [importance type]. apply andb_true_iff in G as [G1 G2].
    destruct (iabs (pressureAltitude cur - pressureAltitude prev)%jint)
      as [a1|]; [|discriminate].
    destruct (iabs (pressureAltitude next - pressureAltitude cur)%jint)
      as [a2|]; [|discriminate].
    unfold igt, ilt, Int in G1, G2. apply Z.ltb_lt in G1, G2.
    unfold Num. cbn.
    destruct (Req_dec_T 50 0) as [E|_]; [lra|].
    exists (IZR (a1 + a2) / 50)%R, t. repeat split; try assumption.
    assert (IZR 200 < IZR (a1 + a2))%R by (apply IZR_lt; lia).
    lra.
Qed.

Lemma sort_insert_Permutation {A} (after : A -> A -> bool) (x : A) (l : list A) :
  Permutation (sort_insert after x l) (x :: l).
Proof.
  induction l as [|y l IH]; simpl; [reflexivity|].
  destruct (after x y); [|reflexivity].
  rewrite IH. apply perm_swap.
Qed.

Lemma Array_sort_Permutation {A} (after : A -> A -> bool) (l : list A) :
  Permutation (Array_sort after l) l.
Proof.
  unfold Array_sort. induction l as [|x l IH]; simpl; [reflexivity|].
  rewrite sort_insert_Permutation. now constructor.
Qed.

Lemma importance_after (a b : Candidate) :
  importance a <> None -> importance b <> None ->
  ngt (importance b - importance a)%num (Num 0) = true <->
  (importanceR a < importanceR b)%R.
Proof.
  unfold importanceR.
  destruct (importance a) as [ra|], (importance b) as [rb|]; try congruence.
  intros _ _. unfold ngt, nlt, Num. cbn.
  destruct (Rlt_dec 0 (rb - ra)); split; intros; try easy; lra.
Qed.

Lemma candidates_importance_real (fixes : list Fix) (level : jsstring)
  (c : Candidate) :
  In c (candidates fixes level) -> exists r, importance c = Some r.
Proof.
  unfold candidates. intros Hc. apply in_flat_map in Hc.
  destruct Hc as ([[prev cur] next] & _ & Hc).
  unfold scan_step in Hc.
  destruct (nlt _ _); [destruct Hc|].
  apply in_app_or in Hc. destruct Hc as [Hc|Hc].
  - destruct (ngt _ _) eqn:G; [|destruct Hc]. destruct Hc as [<-|[]].
    cbn [importance].
    destruct (calculateCourseChange _ _ _ _ _ _); [cbn; eauto|].
    unfold ngt, nlt in G. destruct (turnThreshold level); discriminate.
  - destruct (_ && _) eqn:G; [|destruct Hc]. destruct Hc as [<-|[]].
    cbn [importance]. apply andb_true_iff in G as [G1 G2].
    destruct (iabs (pressureAltitude cur - pressureAltitude prev)%jint);
      [|discriminate].
    destruct (iabs (pressureAltitude next - pressureAltitude cur)%jint);
      [|discriminate].
    unfold Num. cbn. destruct (Req_dec_T 50 0); [lra|eauto].
Qed.

Lemma sort_insert_ranked (x : Candidate) (l : list Candidate) :
  Forall (fun c => importance c <> None) (x :: l) ->
  StronglySorted (fun a b => importanceR b <= importanceR a)%R l ->
  StronglySorted (fun a b => importanceR b <= importanceR a)%R
    (sort_insert (fun a b => ngt (importance b - importance a)%num (Num 0)) x l).
Proof.
  intros Hall. induction l as [|y l IH]; intros Hs; cbn [sort_insert].
  - constructor; constructor.
  - inversion Hs as [|? ? Hl Hy]; subst.
    inversion Hall as [|? ? Hx Hall']; subst.
    inversion Hall' as [|? ? Hy' Hl']; subst.
    destruct (ngt (importance y - importance x)%num (Num 0)) eqn:E.
    + apply importance_after in E; try assumption.
      constructor; [apply IH; [constructor; assumption | exact Hl]|].
      apply Forall_forall. intros z Hz. apply sort_insert_In in Hz.
      destruct Hz as [->|Hz]; [lra|].
      rewrite Forall_forall in Hy. now apply Hy.
    + assert (~ (importanceR x < importanceR y)%R).
      { intros C. apply importance_after in C; try assumption. congruence. }
      constructor; [exact Hs|].
      constructor; [lra|].
      rewrite Forall_forall in Hy |- *. intros z Hz.
      specialize (Hy z Hz). lra.
Qed.

Lemma ranked_sorted (fixes : list Fix) (level : jsstring) :
  StronglySorted (fun a b => importanceR b <= importanceR a)%R
                 (ranked fixes level).
Proof.
  unfold ranked.
  assert (Hall : Forall (fun c => importance c <> None) (candidates fixes level)).
  { apply Forall_forall. intros c Hc.
    destruct (candidates_importance_real _ _ _ Hc) as (r & ->). discriminate. }
  induction (candidates fixes level) as [|x l IH]; [constructor|].
  unfold Array_sort. cbn [fold_right].
  apply sort_insert_ranked.
  - inversion Hall; subst. constructor; [assumption|].
    apply Forall_forall. intros c Hc. apply Array_sort_In in Hc.
    rewrite Forall_forall in H2. now apply H2.
  - apply IH. now inversion Hall.
Qed.

Lemma sorted_firstn_skipn {A} (R : A -> A -> Prop) (l : list A) (k : nat) :
  StronglySorted R l ->
  forall x y, In x (firstn k l) -> In y (skipn k l) -> R x y.
Proof.
  revert k. induction l as [|a l IH]; intros k Hs x y Hx Hy.
  - rewrite firstn_nil in Hx. destruct Hx.
  - destruct k as [|k]; [destruct Hx|].
    inversion Hs as [|? ? Hl Ha]; subst.
    cbn [firstn skipn] in Hx, Hy. destruct Hx as [<-|Hx].
    + rewrite Forall_forall in Ha. apply Ha.
      rewrite <- (firstn_skipn k l). apply in_or_app. now right.
    + now apply (IH k Hl).
Qed.

Lemma firstn_length_firstn {A} (k : nat) (l : list A) :
  firstn (length (firstn k l)) l = firstn k l.
Proof.
  revert k. induction l as [|x l IH]; intros [|k]; simpl; try reflexivity.
  now rewrite IH.
Qed.

(** X22. The budget keeps the most important candidates: the kept and the
    dropped candidates together are the candidates of the scan, each as
    often as the scan produced it, and no dropped candidate has a greater
    importance than a kept one. *)
Theorem budget_keeps_most_important (fixes : list Fix) (level : jsstring) :
  Permutation (selected fixes level ++ dropped fixes level)
              (candidates fixes level) /\
  (forall c c',
      In c (selected fixes level) -> In c' (dropped fixes level) ->
      exists r r',
        importance c = Some r /\ importance c' = Some r' /\ (r' <= r)%R).
Proof.
  set (n := getTargetWaypointCount (calculateTotalDistance fixes) level).
  assert (Hslice : Array_slice0 (ranked fixes level) n =
                   firstn (length (Array_slice0 (ranked fixes level) n))
                          (ranked fixes level)).
  { unfold Array_slice0. cbv zeta. symmetry. apply firstn_length_firstn. }
  split.
  - unfold selected, dropped. fold n.
    rewrite Array_sort_Permutation, Hslice at 1.
    rewrite firstn_skipn. unfold ranked. apply Array_sort_Permutation.
  - intros c c' Hc Hc'.
    unfold selected in Hc. fold n in Hc. apply Array_sort_In in Hc.
    rewrite Hslice in Hc. unfold dropped in Hc'. fold n in Hc'.
    pose proof (sorted_firstn_skipn _ (ranked_sorted fixes level) _ _ Hc Hc')
      as Hle. cbv beta in Hle.
    assert (Hreal : forall x, In x (ranked fixes level) ->
                              exists r, importance x = Some r).
    { intros x Hx. unfold ranked in Hx. apply Array_sort_In in Hx.
      now apply candidates_importance_real in Hx. }
    assert (Hc1 : In c (ranked fixes level)).
    { rewrite <- (firstn_skipn (length (Array_slice0 (ranked fixes level) n))).
      apply in_or_app. now left. }
    assert (Hc2 : In c' (ranked fixes level)).
    { rewrite <- (firstn_skipn (length (Array_slice0 (ranked fixes level) n))).
      apply in_or_app. now right. }
    destruct (Hreal c Hc1) as (r & Er). destruct (Hreal c' Hc2) as (r' & Er').
    exists r, r'. repeat split; try assumption.
    unfold importanceR in Hle. now rewrite Er, Er' in Hle.
Qed.

(** X23. When every fix of a flight has the same real position (a recorder
    that stood still, or a frozen GPS), consecutive samples are less than
    100 m apart, the scan finds no candidate, and the result is TAKEOFF and
    LANDING only, whatever the altitudes and the level. *)
Theorem stationary_flight (this : WaypointGenerator) (flightData : FlightData)
  (level : jsstring) (first : Fix) (rest : list Fix) (la lo : R) :
  fixes flightData = first :: rest ->
  Forall (fun f => latitude f = Some la /\ longitude f = Some lo)
         (first :: rest) ->
  candidates (first :: rest) level = [] /\
  fst (generateWaypoints this flightData level) =
    [endpoint "TAKEOFF" first;
     endpoint "LANDING" (last (first :: rest) first)].
Proof.
  intros Hf Hall.
  assert (Hc : candidates (first :: rest) level = []).
  { unfold candidates.
    assert (G : forall t, In t (triples (sampled (first :: rest))) ->
                          scan_step level t = []).
    { intros [[prev cur] next] Ht. apply triples_In in Ht.
      destruct Ht as (Hp & Hcur & _).
      apply sampled_In in Hp, Hcur. rewrite Forall_forall in Hall.
      destruct (Hall prev Hp) as [Ep1 Ep2]. destruct (Hall cur Hcur) as [Ec1 Ec2].
      unfold scan_step. rewrite Ep1, Ep2, Ec1, Ec2, haversine_self.
      unfold nlt. destruct (Rlt_dec 0 (1 / 10)); [reflexivity|lra]. }
    induction (triples (sampled (first :: rest))) as [|t ts IH];
      [reflexivity|].
    cbn [flat_map]. rewrite (G t (or_introl eq_refl)), IH; [reflexivity|].
    intros t' Ht'. apply G. now right. }
  split; [exact Hc|].
  rewrite (generateWaypoints_selected this flightData level Hf).
  unfold selected, ranked. rewrite Hc.
  unfold Array_sort at 2. cbn [fold_right].
  unfold Array_slice0. cbn [length]. rewrite firstn_nil.
  reflexivity.
Qed.

Lemma stationary_flight_witness :
  candidates [sampleFixAlt 0 0 500; sampleFixAlt 1 10 900; sampleFixAlt 2 20 300]
             (js "low") = [] /\
  fst (generateWaypoints constructor
         (sampleFlight
            [sampleFixAlt 0 0 500; sampleFixAlt 1 10 900; sampleFixAlt 2 20 300])
         (js "low")) =
    [endpoint "TAKEOFF" (sampleFixAlt 0 0 500);
     endpoint "LANDING" (sampleFixAlt 2 20 300)].
Proof.
  apply (@stationary_flight constructor
           (sampleFlight
              [sampleFixAlt 0 0 500; sampleFixAlt 1 10 900; sampleFixAlt 2 20 300])
           (js "low") (sampleFixAlt 0 0 500)
           [sampleFixAlt 1 10 900; sampleFixAlt 2 20 300] 46%R 7%R eq_refl).
  repeat constructor.
Defined.

(** X24. Degenerate flights. On a flight without fixes [generateWaypoints]
    returns no waypoint and leaves the generator as it is: the waypoints of
    an earlier flight stay, and an export after it gives what it gave
    before. On a flight of a single fix it returns TAKEOFF and LANDING,
    both at that fix, and stores them. *)
Theorem degenerate_flights (this : WaypointGenerator) (flightData : FlightData)
  (level : jsstring) :
  (fixes flightData = [] ->
   generateWaypoints this flightData level = ([], this) /\
   forall toFixed now qrElement format,
     generateQRCode toFixed now (snd (generateWaypoints this flightData level))
                    qrElement format =
     generateQRCode toFixed now this qrElement format) /\
  (forall f, fixes flightData = [f] ->
   fst (generateWaypoints this flightData level) =
     [endpoint "TAKEOFF" f; endpoint "LANDING" f] /\
   waypoints (snd (generateWaypoints this flightData level)) =
     [endpoint "TAKEOFF" f; endpoint "LANDING" f] /\
   currentOptimizationLevel (snd (generateWaypoints this flightData level)) =
     level).
Proof.
  split.
  - intros He. unfold generateWaypoints. rewrite He.
    split; [reflexivity|]. intros. reflexivity.
  - intros f Hf.
    assert (H : fst (generateWaypoints this flightData level) =
                [endpoint "TAKEOFF" f; endpoint "LANDING" f]).
    { rewrite (generateWaypoints_selected this flightData level Hf).
      unfold selected, ranked, candidates, sampled.
      cbn [length Nat.div Nat.max sampleLoop Nat.ltb Nat.leb app nth Nat.add last].
      simpl sampleLoop. cbn [last]. rewrite Nat.eqb_refl. cbn [negb triples flat_map].
      unfold Array_sort at 2. cbn [fold_right].
      unfold Array_slice0. cbn [length]. rewrite firstn_nil. reflexivity. }
    split; [exact H|].
    unfold generateWaypoints in *. rewrite Hf in *. cbn [fst snd] in *.
    cbn [waypoints currentOptimizationLevel]. split; [exact H|reflexivity].
Qed.

Lemma degenerate_flights_witness :
  fst (generateWaypoints sampleGenerator (sampleFlight [sampleFix 0 100])
                         (js "low")) =
    [endpoint "TAKEOFF" (sampleFix 0 100); endpoint "LANDING" (sampleFix 0 100)] /\
  generateWaypoints sampleGenerator (sampleFlight []) (js "low") =
    ([], sampleGenerator).
Proof.
  destruct (@degenerate_flights sampleGenerator (sampleFlight [sampleFix 0 100])
              (js "low")) as [_ H1].
  destruct (H1 (sampleFix 0 100) eq_refl) as [H1' _].
  destruct (@degenerate_flights sampleGenerator (sampleFlight []) (js "low"))
    as [H0 _].
  exact (conj H1' (proj1 (H0 eq_refl))).
Defined.

(** The sampling loop keeps what is pushed already and pushes [fixes[i]],
    [fixes[i + sampleRate]], ...: the index of the last push is below the
    number of fixes. *)
Lemma sampleLoop_count (fixes : list Fix) (d : Fix) (sampleRate : nat) :
  forall fuel i acc,
    sampleLoop fuel fixes d sampleRate i acc = acc \/
    exists more,
      sampleLoop fuel fixes d sampleRate i acc = acc ++ nth i fixes d :: more /\
      (sampleRate * length more + i < length fixes)%nat.
Proof.
  induction fuel as [|fuel IH]; intros i acc; [now left|].
  cbn [sampleLoop].
  destruct (i <? length fixes)%nat eqn:E; [|now left].
  apply Nat.ltb_lt in E. right.
  destruct (IH (i + sampleRate)%nat (acc ++ [nth i fixes d]))
    as [Hp|(more & Hp & Hlt)].
  - exists []. rewrite Hp. split; [reflexivity|]. cbn [length]. lia.
  - exists (nth (i + sampleRate) fixes d :: more). rewrite Hp, <- app_assoc.
    split; [reflexivity|]. cbn [length]. rewrite Nat.mul_succ_r. lia.
Qed.

(** X25. The sampled fixes of a flight that is not empty start with the
    first fix, end with (an object identical to) the last fix, are all
    fixes of the flight, and are at most 401, however long the flight. *)
Theorem sampled_bounds (first : Fix) (rest : list Fix) :
  let fixes := first :: rest in
  hd first (sampled fixes) = first /\
  oid (last (sampled fixes) first) = oid (last fixes first) /\
  Forall (fun f => In f fixes) (sampled fixes) /\
  (1 <= length (sampled fixes) <= 401)%nat.
Proof.
  intros fixes. subst fixes.
  assert (Hin : Forall (fun f => In f (first :: rest)) (sampled (first :: rest))).
  { apply Forall_forall. intros f. apply sampled_In. }
  destruct (sampleLoop_count (first :: rest) first
              (Nat.max 1 (length (first :: rest) / 200))
              (length (first :: rest)) 0 [])
    as [Hp|(more & Hp & Hlt)].
  { exfalso. cbn [length sampleLoop Nat.ltb Nat.leb] in Hp.
    destruct (sampleLoop_count (first :: rest) first
                (Nat.max 1 (S (length rest) / 200)) (length rest)
                (0 + Nat.max 1 (S (length rest) / 200))
                ([] ++ [nth 0 (first :: rest) first]))
      as [Hp'|(p & Hp' & _)]; rewrite Hp' in Hp; discriminate. }
  cbn [app nth] in Hp.
  assert (Hlen : (length more < 400)%nat).
  { pose proof (Nat.div_mod_eq (length (first :: rest)) 200) as Hd.
    pose proof (Nat.mod_upper_bound (length (first :: rest)) 200 ltac:(lia)) as Hm.
    destruct (Nat.max_spec 1 (length (first :: rest) / 200)) as [[Hq Hr]|[Hq Hr]];
      rewrite Hr in Hlt; nia. }
  split; [|split; [|split; [exact Hin|]]]; clear Hin;
    unfold sampled; cbv zeta; rewrite Hp.
  - now destruct (negb _).
  - destruct (negb (oid (last (first :: more) first)
                    =? oid (last (first :: rest) first))%nat) eqn:E.
    + now rewrite last_last.
    + now apply negb_false_iff, Nat.eqb_eq in E.
  - destruct (negb _); [rewrite length_app|]; cbn [length]; lia.
Qed.

(* ================================================================= *)
(** ** Export after generation *)

Lemma natToString_short (k : nat) :
  (k < 100)%nat -> (length (natToString k) <= 2)%nat.
Proof.
  intros Hk.
  assert (Hall : forallb (fun k => (length (natToString k) <=? 2)%nat)
                         (seq 0 100) = true) by (vm_compute; reflexivity).
  rewrite forallb_forall in Hall.
  apply Nat.leb_le, Hall, in_seq. lia.
Qed.

Lemma named_names (sel : list Candidate) (k : nat) :
  (k + length sel <= 100)%nat ->
  Forall (fun w => length (name w) <= 7 /\
                   exists c, In c sel /\ lat w = latitude (fix_ c) /\
                             lng w = longitude (fix_ c))%nat
         (named k sel).
Proof.
  revert k. induction sel as [|c sel IH]; intros k Hk; [constructor|].
  cbn [length] in Hk. cbn [named]. constructor.
  - cbn [name lat lng]. split.
    + rewrite length_app.
      pose proof (@natToString_short k ltac:(lia)).
      destruct (type c);
        [change (length (js "TURN")) with 4%nat
        |change (length (js "WP")) with 2%nat]; lia.
    + exists c. split; [now left|]. split; reflexivity.
  - specialize (IH (S k) ltac:(lia)).
    eapply Forall_impl; [|exact IH].
    intros w (Hn & c' & Hc' & Hl). split; [exact Hn|].
    exists c'. split; [now right | exact Hl].
Qed.

Lemma named_length (sel : list Candidate) (k : nat) :
  length (named k sel) = length sel.
Proof.
  revert k. induction sel as [|c sel IH]; intros k; cbn [named length];
    [reflexivity|]. now rewrite IH.
Qed.

Lemma flat_map_length_bound {A} (row : A -> jsstring) (l : list A) (b : nat) :
  Forall (fun x => length (row x) <= b)%nat l ->
  (length (flat_map row l) <= b * length l)%nat.
Proof.
  induction 1 as [|x l Hx Hl IH]; cbn [flat_map length]; [lia|].
  rewrite length_app. lia.
Qed.

(** X26. After [generateWaypoints] on a flight that is not empty, when the
    coordinates of the fixes print with at most 45 characters each at 5
    decimals, the export never fails: [generateQRCode] hands a payload of
    at most 1500 characters to the encoder, for either format. (The
    waypoints are at most 15 and their names at most 7 characters long, so
    the compact form fits when the primary one does not.) *)
Theorem export_after_generation
  (toFixed : nat -> num -> jsstring) (now : jsstring)
  (this : WaypointGenerator) (flightData : FlightData) (level format : jsstring)
  (first : Fix) (rest : list Fix) :
  fixes flightData = first :: rest ->
  Forall (fun f => length (toFixed 5 (latitude f)) <= 45 /\
                   length (toFixed 5 (longitude f)) <= 45)%nat
         (first :: rest) ->
  exists data,
    generateQRCode toFixed now (snd (generateWaypoints this flightData level))
                   true format = QRCode data /\
    (length data <= 1500)%nat.
Proof.
  intros Hf Hall.
  set (g := snd (generateWaypoints this flightData level)).
  assert (Hw : waypoints g =
               endpoint "TAKEOFF" first
               :: named 1 (selected (first :: rest) level)
               ++ [endpoint "LANDING" (last (first :: rest) first)]).
  { rewrite <- (generateWaypoints_selected this flightData level Hf).
    unfold g, generateWaypoints. rewrite Hf. reflexivity. }
  assert (Hne : waypoints g <> []) by (rewrite Hw; discriminate).
  pose proof (selected_length (first :: rest) level) as Hlen.
  rewrite Forall_forall in Hall.
  assert (Hlast : In (last (first :: rest) first) (first :: rest)).
  { destruct (@last_In _ rest first) as [H|H].
    - destruct rest; [now left|]. left. exact H.
    - destruct rest; [now left|]. right. exact H. }
  assert (Hrows : Forall (fun w => length (compactRow toFixed w) <= 100)%nat
                         (waypoints g)).
  { assert (Hrow : forall w f, (length (name w) <= 7)%nat ->
               lat w = latitude f -> lng w = longitude f ->
               In f (first :: rest) ->
               (length (compactRow toFixed w) <= 100)%nat).
    { intros w f Hn Hla Hlo Hin. destruct (Hall f Hin) as [H1 H2].
      unfold compactRow. rewrite !length_app, Hla, Hlo.
      change (length (js ",")) with 1%nat. change (length nl) with 1%nat. lia. }
    rewrite Hw. constructor.
    - apply (Hrow _ first); try reflexivity; try (cbn; lia); now left.
    - apply Forall_app. split.
      + pose proof (@named_names (selected (first :: rest) level) 1
                      ltac:(lia)) as Hn.
        eapply Forall_impl; [|exact Hn].
        intros w (Hname & c & Hc & Hla & Hlo).
        apply (Hrow w (fix_ c)); try assumption.
        now apply candidates_In with (level := level), selected_In.
      + constructor; [|constructor].
        apply (Hrow _ (last (first :: rest) first)); try reflexivity;
          try (cbn; lia); exact Hlast. }
  assert (Hcompact : (length (flat_map (compactRow toFixed) (waypoints g))
                      <= 1500)%nat).
  { pose proof (flat_map_length_bound _ Hrows) as Hb.
    rewrite Hw in Hb |- *. cbn [length] in Hb.
    rewrite length_app, named_length in Hb. cbn [length] in Hb. lia. }
  assert (Hp : exists c t, primaryPayload toFixed now g format = Some (c :: t)).
  { unfold primaryPayload. destruct (String_eqb format (js "gpx"));
      [now apply generateGPX_nonempty | now apply generateCSV_nonempty]. }
  destruct Hp as (c & t & Hp).
  rewrite (generateQRCode_unfold _ _ _ _ Hp
             (@generateCompactCSV_rows toFixed g Hne)).
  destruct (length (c :: t) <=? 1500)%nat eqn:E1.
  - eexists. split; [reflexivity|]. now apply Nat.leb_le.
  - apply Nat.leb_le in Hcompact. rewrite Hcompact.
    eexists. split; [reflexivity|]. now apply Nat.leb_le.
Qed.

Lemma floorR_unique (z : Z) (x : R) :
  (IZR z <= x < IZR z + 1)%R -> floorR x = z.
Proof.
  intros [H1 H2]. destruct (floorR_spec x) as [F1 F2].
  assert (IZR z < IZR (floorR x + 1))%R by (rewrite plus_IZR; lra).
  assert (IZR (floorR x) < IZR (z + 1))%R by (rewrite plus_IZR; lra).
  apply lt_IZR in H, H0. lia.
Qed.

(** The exact reading of [toFixed] on a natural number of degrees. *)
Lemma toFixed_exact_5_nat (n : Z) :
  (0 <= n)%Z ->
  toFixed_exact 5 (Num n) =
  (let m := intToString (Some (n * 100000)%Z) in
   let m := repeat 48%N (5 + 1 - length m) ++ m in
   firstn (length m - 5) m ++ js "." ++ skipn (length m - 5) m).
Proof.
  intros Hn. unfold toFixed_exact, Num.
  assert (H0 : (0 <= IZR n)%R) by (apply IZR_le; exact Hn).
  destruct (Rlt_dec (IZR n) 0) as [C|_]; [lra|].
  rewrite (@floorR_unique (n * 100000)%Z).
  - reflexivity.
  - rewrite Rabs_pos_eq by exact H0. rewrite mult_IZR. simpl pow. lra.
Qed.

Lemma export_after_generation_witness :
  exists data,
    generateQRCode toFixed_exact sampleNow
      (snd (generateWaypoints constructor
              (sampleFlight [sampleFix 0 100; sampleFix 1 200; sampleFix 2 300])
              (js "medium")))
      true (js "gpx") = QRCode data /\
    (length data <= 1500)%nat.
Proof.
  apply (@export_after_generation toFixed_exact sampleNow constructor
           (sampleFlight [sampleFix 0 100; sampleFix 1 200; sampleFix 2 300])
           (js "medium") (js "gpx") (sampleFix 0 100)
           [sampleFix 1 200; sampleFix 2 300] eq_refl).
  repeat (apply Forall_cons; [split|]); try apply Forall_nil;
    cbn [sampleFix latitude longitude];
    rewrite toFixed_exact_5_nat by lia; vm_compute; lia.
Defined.

(* ================================================================= *)
(** ** Further properties of the decoding *)

Lemma dropWhile_head (p : char -> bool) (s : jsstring) (c : char) (t : jsstring) :
  dropWhile p s = c :: t -> p c = false.
Proof.
  induction s as [|x s IH]; simpl; [discriminate|].
  destruct (p x) eqn:E; [exact IH|]. intros [= <- <-]. exact E.
Qed.

Lemma dropWhile_suffix (p : char -> bool) (s : jsstring) :
  exists pre, s = pre ++ dropWhile p s.
Proof.
  induction s as [|x s [pre IH]]; simpl; [now exists []|].
  destruct (p x); [|now exists []].
  exists (x :: pre). simpl. now rewrite <- IH.
Qed.

Lemma takeWhile_Forall (p : char -> bool) (s : jsstring) :
  Forall (fun c => p c = true) (takeWhile p s).
Proof.
  induction s as [|x s IH]; simpl; [constructor|].
  destruct (p x) eqn:E; constructor; assumption.
Qed.

(** What [trim] leaves is a part of the string without white space at
    either end. *)
Lemma trim_spec (s : jsstring) :
  (exists pre post, s = pre ++ trim s ++ post) /\
  (forall c t, trim s = c :: t -> isWhiteSpace c = false) /\
  (forall c t, trim s = t ++ [c] -> isWhiteSpace c = false).
Proof.
  unfold trim, trimEnd, trimStart.
  set (s1 := dropWhile isWhiteSpace s).
  destruct (dropWhile_suffix isWhiteSpace s) as [pre Hpre]. fold s1 in Hpre.
  destruct (dropWhile_suffix isWhiteSpace (rev s1)) as [post Hpost].
  set (s2 := dropWhile isWhiteSpace (rev s1)) in *.
  assert (Hs1 : s1 = rev s2 ++ rev post).
  { rewrite <- rev_app_distr, <- Hpost. now rewrite rev_involutive. }
  split; [|split].
  - exists pre, (rev post). now rewrite <- Hs1.
  - intros c t Ht.
    assert (Hc : exists t', s1 = c :: t').
    { rewrite Hs1, Ht. simpl. eauto. }
    destruct Hc as [t' Hc]. apply (dropWhile_head isWhiteSpace s Hc).
  - intros c t Ht.
    assert (Hc : s2 = c :: rev t).
    { rewrite <- (rev_involutive s2), Ht, rev_app_distr. reflexivity. }
    apply (dropWhile_head isWhiteSpace (rev s1) Hc).
Qed.

Lemma lazy_colon_group_clean (s g : jsstring) :
  lazy_colon_group s = Some g ->
  Forall (fun c => isLineTerminator c = false) g.
Proof.
  induction s as [|c s IH]; simpl; [discriminate|].
  destruct (c =? 58)%N.
  - intros [= <-].
    pose proof (takeWhile_Forall (fun c => negb (isLineTerminator c)) s) as H.
    eapply Forall_impl; [|exact H]. intros a Ha. now apply negb_true_iff.
  - destruct (isLineTerminator c); [discriminate|exact IH].
Qed.

Lemma regex_search_Some {A} (here : jsstring -> option A) (s : jsstring) (r : A) :
  regex_search here s = Some r -> exists s', here s' = Some r.
Proof.
  induction s as [|c s IH]; simpl.
  - destruct (here []) eqn:E; [intros [= <-]; eauto|discriminate].
  - destruct (here (c :: s)) eqn:E; [intros [= <-]; eauto|exact IH].
Qed.

(** X27. The value that a header line gives to a field (pilot, glider type,
    registration, competition id, firmware and hardware version) is stored
    trimmed: it is not empty, it neither starts nor ends with white space,
    and it holds no line terminator, so that the carriage return of a log
    with CR LF line ends never gets into the header. *)
Theorem header_value_trimmed (head : pattern) (line v : jsstring) :
  header_value head line = Some v ->
  v <> [] /\
  (forall c t, v = c :: t -> isWhiteSpace c = false) /\
  (forall c t, v = t ++ [c] -> isWhiteSpace c = false) /\
  Forall (fun c => isLineTerminator c = false) v.
Proof.
  unfold header_value, regex_group.
  destruct (regex_search _ line) as [g|] eqn:E; [|discriminate].
  apply regex_search_Some in E. destruct E as (s' & E).
  destruct (match_head head s') as [rest|]; [|discriminate].
  apply lazy_colon_group_clean in E.
  destruct (trim_spec g) as ((pre & post & Hg) & Hh & Hl).
  destruct (trim g) as [|c t] eqn:Et; [discriminate|].
  intros [= <-]. split; [discriminate|]. split; [exact Hh|]. split; [exact Hl|].
  rewrite Hg in E. apply Forall_app in E as [_ E].
  apply Forall_app in E as [E _]. exact E.
Qed.

Lemma header_value_trimmed_witness :
  header_value (HFO "PLT") (js "HFPLTPILOT:  Jane Doe " ++ [13%N]) =
    Some (js "Jane Doe") /\
  js "Jane Doe" <> [] /\
  Forall (fun c => isLineTerminator c = false) (js "Jane Doe").
Proof.
  destruct (@header_value_trimmed (HFO "PLT")
              (js "HFPLTPILOT:  Jane Doe " ++ [13%N]) (js "Jane Doe") eq_refl)
    as (H1 & _ & _ & H4).
  exact (conj eq_refl (conj H1 H4)).
Defined.

Lemma substr_app (s e : jsstring) (start len : nat) :
  (start + len <= length s)%nat ->
  substr (s ++ e) start len = substr s start len.
Proof.
  intros H. unfold substr.
  rewrite skipn_app, firstn_app.
  replace (start - length s)%nat with 0%nat by lia.
  rewrite length_skipn.
  replace (len - (length s - start))%nat with 0%nat by lia.
  cbn [skipn firstn]. now rewrite app_nil_r.
Qed.

(** X28. What follows the 35 columns of a B record is ignored: extension
    fields, or the carriage return of a CR LF line end, do not change the
    fix that the record decodes to. *)
Theorem parseBRecord_ignores_tail (o : nat) (line tail : jsstring) :
  (35 <= length line)%nat ->
  parseBRecord o (line ++ tail) = parseBRecord o line /\
  parseBRecord o line <> None.
Proof.
  intros H. split.
  - unfold parseBRecord. rewrite length_app.
    destruct (length line <? 35)%nat eqn:E1; [apply Nat.ltb_lt in E1; lia|].
    destruct (length line + length tail <? 35)%nat eqn:E2;
      [apply Nat.ltb_lt in E2; lia|].
    cbv zeta. unfold charAt. rewrite !substr_app by lia. reflexivity.
  - unfold parseBRecord.
    destruct (length line <? 35)%nat eqn:E1; [apply Nat.ltb_lt in E1; lia|].
    discriminate.
Qed.

Lemma parseBRecord_ignores_tail_witness :
  parseBRecord 0 (js "B1101355206343N00006198WA0058700614" ++ js "023" ++ [13%N]) =
  parseBRecord 0 (js "B1101355206343N00006198WA0058700614") /\
  parseBRecord 0 (js "B1101355206343N00006198WA0058700614") <> None.
Proof.
  apply (@parseBRecord_ignores_tail 0
           (js "B1101355206343N00006198WA0058700614") (js "023" ++ [13%N])).
  vm_compute. lia.
Defined.

Lemma parseInt_digits (ds : jsstring) :
  ds <> [] -> forallb isDigit ds = true ->
  parseInt ds = Some (digitsValue ds).
Proof.
  intros Hne Hd. unfold parseInt, trimStart.
  destruct ds as [|c ds]; [contradiction|].
  cbn [forallb] in Hd. apply andb_true_iff in Hd as [Hc Hds].
  assert (Hws : isWhiteSpace c = false /\ (c =? 45)%N = false
                /\ (c =? 43)%N = false).
  { digit_cases Hc; repeat split; reflexivity. }
  destruct Hws as (W & M & P).
  cbn [dropWhile]. rewrite W, M, P.
  assert (Ht : takeWhile isDigit (c :: ds) = c :: ds).
  { cbn [takeWhile]. rewrite Hc. f_equal.
    induction ds as [|d ds IH]; [reflexivity|].
    cbn [forallb] in Hds. apply andb_true_iff in Hds as [Hd Hds].
    cbn [takeWhile]. rewrite Hd. f_equal. now apply IH. }
  rewrite Ht. f_equal. lia.
Qed.

Lemma digitsValue_bound (ds : jsstring) :
  forallb isDigit ds = true ->
  (0 <= digitsValue ds < 10 ^ Z.of_nat (length ds))%Z.
Proof.
  intros Hd. unfold digitsValue.
  assert (G : forall acc, (0 <= acc)%Z ->
    (0 <= fold_left (fun a c => a * 10 + digitValue c) ds acc
     < (acc + 1) * 10 ^ Z.of_nat (length ds))%Z).
  { induction ds as [|c ds IH]; intros acc Hacc.
    - cbn. lia.
    - cbn [forallb] in Hd. apply andb_true_iff in Hd as [Hc Hds].
      cbn [fold_left length].
      assert (Hv : (0 <= digitValue c <= 9)%Z).
      { digit_cases Hc; vm_compute; split; discriminate. }
      specialize (IH Hds (acc * 10 + digitValue c)%Z ltac:(lia)).
      rewrite Nat2Z.inj_succ, Z.pow_succ_r by lia.
      pose proof (Z.pow_pos_nonneg 10 (Z.of_nat (length ds)) ltac:(lia)
                                   ltac:(lia)).
      nia. }
  specialize (G 0%Z ltac:(lia)). lia.
Qed.

(** X29. A B record whose latitude and longitude fields are digits decodes
    to a position that is a pair of numbers (never NaN): the degrees plus
    the minutes, with their thousandths, over 60, negated unless the
    hemisphere letter is N (for the latitude) or E (for the longitude). The
    magnitudes are below 101 and 1001 degrees; no range check is made. *)
Theorem parseBRecord_position_decoded (o : nat) (line : jsstring) (f : Fix) :
  parseBRecord o line = Some f ->
  forallb isDigit (substr line 7 7) = true ->
  forallb isDigit (substr line 15 8) = true ->
  let mlat := (IZR (digitsValue (substr line 7 2)) +
               (IZR (digitsValue (substr line 9 2)) +
                IZR (digitsValue (substr line 11 3)) / 1000) / 60)%R in
  let mlon := (IZR (digitsValue (substr line 15 3)) +
               (IZR (digitsValue (substr line 18 2)) +
                IZR (digitsValue (substr line 20 3)) / 1000) / 60)%R in
  latitude f =
    Some ((if String_eqb (charAt line 14) (js "N") then 1 else -1) * mlat)%R /\
  longitude f =
    Some ((if String_eqb (charAt line 23) (js "E") then 1 else -1) * mlon)%R /\
  (0 <= mlat < 101)%R /\ (0 <= mlon < 1001)%R.
Proof.
  intros Hf Hlat Hlon.
  assert (Hlen : (35 <= length line)%nat).
  { unfold parseBRecord in Hf.
    destruct (length line <? 35)%nat eqn:E; [discriminate|].
    now apply Nat.ltb_ge in E. }
  do 24 (destruct line as [|? line]; [cbn [length] in Hlen; lia|]).
  unfold substr in *. cbn [firstn skipn] in *.
  cbn [forallb] in Hlat, Hlon.
  repeat (apply andb_true_iff in Hlat; destruct Hlat as [? Hlat]).
  repeat (apply andb_true_iff in Hlon; destruct Hlon as [? Hlon]).
  assert (B2 : forall a b, isDigit a = true -> isDigit b = true ->
             parseInt [a; b] = Some (digitsValue [a; b]) /\
             (0 <= digitsValue [a; b] < 100)%Z).
  { clear. intros a b Ha Hb. split.
    - apply parseInt_digits; [discriminate|]. cbn [forallb]. now rewrite Ha, Hb.
    - apply (@digitsValue_bound [a; b]). cbn [forallb]. now rewrite Ha, Hb. }
  assert (B3 : forall a b c, isDigit a = true -> isDigit b = true ->
             isDigit c = true ->
             parseInt [a; b; c] = Some (digitsValue [a; b; c]) /\
             (0 <= digitsValue [a; b; c] < 1000)%Z).
  { clear. intros a b c Ha Hb Hc. split.
    - apply parseInt_digits; [discriminate|]. cbn [forallb].
      now rewrite Ha, Hb, Hc.
    - apply (@digitsValue_bound [a; b; c]). cbn [forallb].
      now rewrite Ha, Hb, Hc. }
  unfold parseBRecord in Hf.
  match type of Hf with
  | (if ?c then _ else _) = _ => destruct c; [discriminate|]
  end.
  injection Hf as <-. cbv zeta. cbn [latitude longitude].
  unfold substr, charAt, substr. cbn [firstn skipn].
  repeat match goal with
         | |- context [parseInt [?a; ?b]] =>
             let P := fresh "P" in let Q := fresh "Q" in
             destruct (B2 a b) as [P Q]; [assumption|assumption|];
             rewrite P; clear P
         | |- context [parseInt [?a; ?b; ?c]] =>
             let P := fresh "P" in let Q := fresh "Q" in
             destruct (B3 a b c) as [P Q]; [assumption|assumption|assumption|];
             rewrite P; clear P
         end.
  unfold of_int, Num. cbn [option_map].
  unfold ndiv.
  destruct (Req_dec_T 1000 0) as [C|_]; [lra|].
  destruct (Req_dec_T 60 0) as [C|_]; [lra|].
  cbn [nadd nmul lift2].
  repeat match goal with
         | H : (0 <= ?z < 100)%Z |- _ =>
             assert (0 <= IZR z <= 99)%R
               by (split; [apply (IZR_le 0) | apply (IZR_le _ 99)]; lia);
             clear H
         | H : (0 <= ?z < 1000)%Z |- _ =>
             assert (0 <= IZR z <= 999)%R
               by (split; [apply (IZR_le 0) | apply (IZR_le _ 999)]; lia);
             clear H
         end.
  change (js "N") with [78%N]. change (js "E") with [69%N].
  cbn [String_eqb].
  split.
  { destruct (char_eqb _ 78%N); reflexivity. }
  split.
  { destruct (char_eqb _ 69%N); reflexivity. }
  split; split; lra.
Qed.

Lemma parseBRecord_position_decoded_witness :
  exists f lat lon,
    parseBRecord 0 (js "B1101355206343N00006198WA0058700614") = Some f /\
    latitude f = Some lat /\ longitude f = Some lon.
Proof.
  destruct (@parseBRecord_Some 0 (js "B1101355206343N00006198WA0058700614"))
    as (f & Hf & _); [vm_compute; lia|].
  destruct (@parseBRecord_position_decoded 0
              (js "B1101355206343N00006198WA0058700614") f Hf eq_refl eq_refl)
    as (Hla & Hlo & _).
  exists f. do 2 eexists. split; [exact Hf|]. split; [exact Hla | exact Hlo].
Defined.

(** X30. The number of waypoints of a flight that is not empty is 2 plus
    the number of kept candidates, and the candidates are kept up to the
    budget: all of them when they are no more than the budget, as many as
    the budget otherwise, and none when the budget is NaN. *)
Theorem waypoint_count (this : WaypointGenerator) (flightData : FlightData)
  (level : jsstring) (first : Fix) (rest : list Fix) :
  fixes flightData = first :: rest ->
  length (fst (generateWaypoints this flightData level)) =
    (2 + length (selected (first :: rest) level))%nat /\
  length (selected (first :: rest) level) =
    match getTargetWaypointCount (calculateTotalDistance (first :: rest)) level
    with
    | Some n => Nat.min (Z.to_nat n) (length (candidates (first :: rest) level))
    | None => 0%nat
    end.
Proof.
  intros Hf. split.
  - rewrite (generateWaypoints_selected this flightData level Hf).
    cbn [length]. rewrite length_app, named_length. cbn [length]. lia.
  - unfold selected. rewrite Array_sort_length.
    assert (Hr : length (ranked (first :: rest) level) =
                 length (candidates (first :: rest) level))
      by (unfold ranked; apply Array_sort_length).
    destruct (budget_cases (calculateTotalDistance (first :: rest)) level)
      as [En|(n & En & Hn)]; rewrite En.
    + now rewrite Array_slice0_NaN.
    + unfold Array_slice0. cbv zeta.
      destruct (n <? 0)%Z eqn:E; [apply Z.ltb_lt in E; lia|].
      rewrite length_firstn, Hr. lia.
Qed.

Lemma waypoint_count_witness :
  length (fst (generateWaypoints constructor
                 (sampleFlight [sampleFix 0 100; sampleFix 1 200])
                 (js "medium"))) =
    (2 + length (selected [sampleFix 0 100; sampleFix 1 200] (js "medium")))%nat.
Proof.
  exact (proj1 (@waypoint_count constructor
                  (sampleFlight [sampleFix 0 100; sampleFix 1 200])
                  (js "medium") (sampleFix 0 100) [sampleFix 1 200] eq_refl)).
Defined.
